(** * combo_sensor_ble: environmental sensing over BLE

  A shallow embedding of [combo_sensor_ble.ino] (Arduino Nano 33 BLE
  Sense).  The sketch samples temperature, humidity, pressure and colour,
  encodes each reading for its GATT characteristic, and writes a
  characteristic only when its encoded value changed since the last write.

  Layout of the development:
  - [CInt]     the integer types of the target (32-bit [int], [unsigned
               int], [long]): ranges, conversion, checked arithmetic;
  - [Float32]  IEEE 754 binary32, the sketch's [float], over the Standard
               Library's [SpecFloat]; conversions to integers and the
               rational value of a float;
  - [QInt]     truncation and rounding of rationals;
  - [WString]  the pieces of the Arduino [String] class the sketch uses;
  - [Sketch]   the globals, the functions of the sketch and the [loop()]
               control flow as a step function driven by the hardware;
  - [Wording]  the value codecs as the design document words them
               (rounding to nearest), to be compared with the sketch;
  - [Filter]   observations on states and traces used in the statements;
  - [Bench]    concrete hardware answers for the examples;
  - [Session]  observations on whole runs of the control loop;
  - [Setup]    [setup()], the start-up sequence with its fatal halts;
  - the theorems. *)

From Stdlib Require Import ZArith QArith Qpower Qround Lia Bool List.
From Stdlib Require Import Ascii String DecimalString DecimalZ.
From Stdlib Require Import Floats.SpecFloat.
Import ListNotations.

Local Open Scope Z_scope.

(* ===================================================================== *)
(** ** Integer types of the target *)
(* ===================================================================== *)

Module CInt.

(** On the nRF52840 (ARM Cortex-M4) [int], [unsigned int] and [long] are
    all 32 bits wide. *)
Definition width : Z := 32.

Definition INT_MIN : Z := - 2 ^ (width - 1).
Definition INT_MAX : Z := 2 ^ (width - 1) - 1.
Definition UINT_MAX : Z := 2 ^ width - 1.

Definition in_int (z : Z) : bool := (INT_MIN <=? z) && (z <=? INT_MAX).
Definition in_uint (z : Z) : bool := (0 <=? z) && (z <=? UINT_MAX).

(** Reduction modulo 2^32, as a conversion between the unsigned and the
  signed type does. *)
Definition wrap_unsigned (z : Z) : Z := z mod 2 ^ width.
Definition wrap_signed (z : Z) : Z :=
  (z + 2 ^ (width - 1)) mod 2 ^ width - 2 ^ (width - 1).

(** [a + b] on [int] and [a - b] on [long]: the exact result when the
  type can hold it; signed overflow is undefined. *)
Definition int_add (a b : Z) : option Z :=
  if in_int (a + b) then Some (a + b) else None.
Definition long_sub (a b : Z) : option Z :=
  if in_int (a - b) then Some (a - b) else None.

(** The 16-bit ranges the comments of the codecs name. *)
Definition in_int16 (z : Z) : bool := (- 32768 <=? z) && (z <=? 32767).
Definition in_uint16 (z : Z) : bool := (0 <=? z) && (z <=? 65535).

(** [unsigned long] to [long], as in [long currentMillis = millis();]. *)
Definition long_of_ulong (u : Z) : Z := wrap_signed u.

End CInt.

(* ===================================================================== *)
(** ** binary32 *)
(* ===================================================================== *)

Module Float32.

Definition prec : Z := 24.
Definition emax : Z := 128.

Definition float : Type := spec_float.

(** Integer to [float] (round to nearest even), as the usual arithmetic
    conversions do for the [int] operand of [x * 100]. *)
Definition of_int (z : Z) : float := binary_normalize prec emax z 0 false.

Definition mul (x y : float) : float := SFmul prec emax x y.
Definition div (x y : float) : float := SFdiv prec emax x y.

(** The float nearest to the decimal [n / d]; used for literals and for
    concrete sensor readings such as 45.23. *)
Definition of_ratio (n d : Z) : float := div (of_int n) (of_int d).

(** Integral part of a float, fraction discarded (toward zero).  Neither
    an infinity nor a NaN has one. *)
Definition trunc (x : float) : option Z :=
  match x with
  | S754_zero _ => Some 0
  | S754_finite s m e => Some (cond_Zopp s (Z.shiftl (Zpos m) e))
  | S754_infinity _ | S754_nan => None
  end.

(** [(int) x]: the truncated value when [int] can hold it; the conversion
    is undefined otherwise. *)
Definition to_int (x : float) : option Z :=
  match trunc x with
  | Some z => if CInt.in_int z then Some z else None
  | None => None
  end.

(** [(unsigned int) x], likewise. *)
Definition to_uint (x : float) : option Z :=
  match trunc x with
  | Some z => if CInt.in_uint z then Some z else None
  | None => None
  end.

(** The rational number a finite float stands for. *)
Definition to_Q (x : float) : option Q :=
  match x with
  | S754_zero _ => Some 0%Q
  | S754_finite s m e =>
      Some (inject_Z (cond_Zopp s (Zpos m)) * Qpower 2 e)%Q
  | S754_infinity _ | S754_nan => None
  end.

Definition finite (x : float) : bool :=
  match x with
  | S754_zero _ | S754_finite _ _ _ => true
  | S754_infinity _ | S754_nan => false
  end.

End Float32.

(** Rounding of rationals to integers. *)
Module QInt.

(** Toward zero. *)
Definition truncate (q : Q) : Z :=
  if Qle_bool 0 q then Qfloor q else Qceiling q.

(** To nearest, ties away from zero (C's [round]). *)
Definition round (q : Q) : Z :=
  if Qle_bool 0 q then Qfloor (q + (1 # 2)) else Qceiling (q - (1 # 2)).

End QInt.

(* ===================================================================== *)
(** ** Arduino [String] *)
(* ===================================================================== *)

Module WString.

(** [String(int)] / [s += n]: the decimal digits, with a leading minus
    sign for a negative number ([itoa] in base 10). *)
Definition of_int (z : Z) : string := NilEmpty.string_of_int (Z.to_int z).

(** [s.getBytes(buf, bufsize)]: copies at most [bufsize - 1] characters
    and terminates them with a NUL; nothing is written when [bufsize] is
    zero. *)
Definition getBytes (s : string) (bufsize : nat) : list Byte.byte :=
  match bufsize with
  | O => []
  | S n => firstn n (list_byte_of_string s) ++ [Byte.x00]
  end.

End WString.

(* ===================================================================== *)
(** ** The sketch *)
(* ===================================================================== *)

Module Sketch.

Import CInt.

(** *** Constants *)

(** [const int UPDATE_FREQUENCY = 2000;] *)
Definition UPDATE_FREQUENCY : Z := 2000.

(** [const float CALIBRATION_FACTOR = -4.0;] *)
Definition CALIBRATION_FACTOR : Float32.float :=
  Eval vm_compute in Float32.of_int (-4).

(** *** Globals and the LED pin *)

Record State : Type := mkState {
  previousTemperature : Z;      (* int *)
  previousHumidity : Z;         (* unsigned int *)
  previousPressure : Z;         (* unsigned int *)
  previousColor : string;       (* String *)
  r : Z; g : Z; b : Z; a : Z;   (* int r, g, b, a; *)
  previousMillis : Z;           (* long *)
  LED_BUILTIN : bool            (* level of the LED pin *)
}.

(** The globals as their initialisers leave them; the LED is off. *)
Definition initial : State :=
  {| previousTemperature := 0; previousHumidity := 0;
     previousPressure := 0; previousColor := EmptyString;
     r := 0; g := 0; b := 0; a := 0;
     previousMillis := 0; LED_BUILTIN := false |}.

Definition set_previousTemperature (v : Z) (st : State) : State :=
  mkState v (previousHumidity st) (previousPressure st) (previousColor st)
          (r st) (g st) (b st) (a st) (previousMillis st) (LED_BUILTIN st).
Definition set_previousHumidity (v : Z) (st : State) : State :=
  mkState (previousTemperature st) v (previousPressure st) (previousColor st)
          (r st) (g st) (b st) (a st) (previousMillis st) (LED_BUILTIN st).
Definition set_previousPressure (v : Z) (st : State) : State :=
  mkState (previousTemperature st) (previousHumidity st) v (previousColor st)
          (r st) (g st) (b st) (a st) (previousMillis st) (LED_BUILTIN st).
Definition set_previousColor (v : string) (st : State) : State :=
  mkState (previousTemperature st) (previousHumidity st) (previousPressure st) v
          (r st) (g st) (b st) (a st) (previousMillis st) (LED_BUILTIN st).
Definition set_rgba (vr vg vb va : Z) (st : State) : State :=
  mkState (previousTemperature st) (previousHumidity st) (previousPressure st)
          (previousColor st) vr vg vb va (previousMillis st) (LED_BUILTIN st).
Definition set_previousMillis (v : Z) (st : State) : State :=
  mkState (previousTemperature st) (previousHumidity st) (previousPressure st)
          (previousColor st) (r st) (g st) (b st) (a st) v (LED_BUILTIN st).
Definition set_LED_BUILTIN (v : bool) (st : State) : State :=
  mkState (previousTemperature st) (previousHumidity st) (previousPressure st)
          (previousColor st) (r st) (g st) (b st) (a st) (previousMillis st) v.

(** *** The hardware, as seen during one pass

    Everything the sketch asks of the sensors, the clock and the BLE
    stack during one pass of its control loop.  The colour sensor answers
    [colorAvailable()] with false [APDS_busy] times before a reading is
    ready. *)

Record World : Type := mkWorld {
  BLE_central : option string;          (* address of the central, if any *)
  central_connected : bool;
  millis : Z;                           (* unsigned long *)
  HTS_readTemperature : Float32.float;
  HTS_readHumidity : Float32.float;
  BARO_readPressure : Float32.float;
  APDS_busy : nat;
  APDS_readColor : Z * Z * Z * Z
}.

(** *** What the sketch does to the outside *)

Inductive Channel : Type := Temperature | Humidity | Pressure | Color.

Inductive Payload : Type :=
| Num (v : Z)                                   (* writeValue(value) *)
| Buf (bytes : list Byte.byte) (length : nat).  (* writeValue(buf, length) *)

Inductive Event : Type :=
| Serial_print (s : string)
| Serial_println (s : string)
| digitalWrite (level : bool)           (* on the LED pin *)
| delay (ms : Z)
| writeValue (c : Channel) (p : Payload)
| UpdateCycle.                          (* updateReadings() is entered *)

Definition Channel_eqb (x y : Channel) : bool :=
  match x, y with
  | Temperature, Temperature | Humidity, Humidity
  | Pressure, Pressure | Color, Color => true
  | _, _ => false
  end.

(** The payloads written to a channel, in order. *)
Fixpoint written (c : Channel) (evs : list Event) : list Payload :=
  match evs with
  | [] => []
  | writeValue c' p :: rest =>
      if Channel_eqb c c' then p :: written c rest else written c rest
  | _ :: rest => written c rest
  end.

Definition publishes (c : Channel) (evs : list Event) : bool :=
  match written c evs with [] => false | _ :: _ => true end.

Definition is_write (e : Event) : bool :=
  match e with writeValue _ _ => true | _ => false end.

Definition is_cycle (e : Event) : bool :=
  match e with UpdateCycle => true | _ => false end.

(** Number of update cycles entered. *)
Definition cycles (evs : list Event) : nat :=
  List.length (filter is_cycle evs).

(** *** Computations

    A computation reads the hardware, reads and writes the globals, emits
    events, and is undefined ([None]) when a float-to-integer conversion
    or a signed addition or subtraction is. *)

Definition M (A : Type) : Type :=
  World -> State -> option (A * State * list Event).

Definition ret {A} (x : A) : M A := fun _ st => Some (x, st, []).

Definition bind {A B} (m : M A) (k : A -> M B) : M B :=
  fun w st =>
    match m w st with
    | None => None
    | Some (x, st1, ev1) =>
        match k x w st1 with
        | None => None
        | Some (y, st2, ev2) => Some (y, st2, ev1 ++ ev2)
        end
    end.

Declare Scope sketch_scope.
Delimit Scope sketch_scope with sketch.
Notation "x <- m ;; k" := (bind m (fun x => k))
  (at level 61, m at next level, right associativity) : sketch_scope.
Notation "m ;; k" := (bind m (fun _ => k))
  (at level 61, right associativity) : sketch_scope.
Local Open Scope sketch_scope.

Definition ask {A} (f : World -> A) : M A := fun w st => Some (f w, st, []).
Definition gets {A} (f : State -> A) : M A := fun _ st => Some (f st, st, []).
Definition modify (f : State -> State) : M unit :=
  fun _ st => Some (tt, f st, []).
Definition emit (e : Event) : M unit := fun _ st => Some (tt, st, [e]).
Definition defined {A} (o : option A) : M A :=
  fun _ st => match o with Some x => Some (x, st, []) | None => None end.
Definition when (c : bool) (m : M unit) : M unit := if c then m else ret tt.

Fixpoint repeat_ (n : nat) (m : M unit) : M unit :=
  match n with
  | O => ret tt
  | S n' => m ;; repeat_ n' m
  end.

(** *** The value codecs *)

(** [return (int) (HTS.readTemperature() * 100) + (int) (calibration * 100);] *)
Definition getTemperature (calibration : Float32.float) : M Z :=
  t <- ask HTS_readTemperature ;;
  x <- defined (Float32.to_int (Float32.mul t (Float32.of_int 100))) ;;
  y <- defined (Float32.to_int (Float32.mul calibration (Float32.of_int 100))) ;;
  defined (int_add x y).

(** [return (unsigned int) (HTS.readHumidity() * 100);] *)
Definition getHumidity : M Z :=
  h <- ask HTS_readHumidity ;;
  defined (Float32.to_uint (Float32.mul h (Float32.of_int 100))).

(** [return (unsigned int) (BARO.readPressure() * 1000 * 10);] *)
Definition getPressure : M Z :=
  p <- ask BARO_readPressure ;;
  defined (Float32.to_uint
             (Float32.mul (Float32.mul p (Float32.of_int 1000))
                          (Float32.of_int 10))).

(** Waits for the colour sensor, then stores its four channels in the
    globals [r], [g], [b], [a]. *)
Definition getColor : M unit :=
  busy <- ask APDS_busy ;;
  repeat_ busy (emit (delay 5)) ;;
  c <- ask APDS_readColor ;;
  let '(tmp_r, tmp_g, tmp_b, tmp_a) := c in
  modify (set_rgba tmp_r tmp_g tmp_b tmp_a).

(** The text built in [stringColor]. *)
Definition colorString (vr vg vb va : Z) : string :=
  (((((("" ++ WString.of_int vr) ++ ",") ++ WString.of_int vg) ++ ",")
      ++ WString.of_int vb) ++ ",") ++ WString.of_int va.

(** *** One update cycle *)

Definition updateReadings : M unit :=
  temperature <- getTemperature CALIBRATION_FACTOR ;;
  humidity <- getHumidity ;;
  pressure <- getPressure ;;
  getColor ;;

  prevT <- gets previousTemperature ;;
  when (negb (temperature =? prevT))
    (emit (Serial_print "Temperature: ") ;;
     emit (Serial_println (WString.of_int temperature)) ;;
     emit (writeValue Temperature (Num temperature)) ;;
     modify (set_previousTemperature temperature)) ;;

  prevH <- gets previousHumidity ;;
  when (negb (humidity =? prevH))
    (emit (Serial_print "Humidity: ") ;;
     emit (Serial_println (WString.of_int humidity)) ;;
     emit (writeValue Humidity (Num humidity)) ;;
     modify (set_previousHumidity humidity)) ;;

  prevP <- gets previousPressure ;;
  when (negb (pressure =? prevP))
    (emit (Serial_print "Pressure: ") ;;
     emit (Serial_println (WString.of_int pressure)) ;;
     emit (writeValue Pressure (Num pressure)) ;;
     modify (set_previousPressure pressure)) ;;

  vr <- gets r ;; vg <- gets g ;; vb <- gets b ;; va <- gets a ;;
  let stringColor := colorString vr vg vb va in
  prevC <- gets previousColor ;;
  when (negb (String.eqb stringColor prevC))
    (let size := S (String.length stringColor) in
     let bytes := WString.getBytes stringColor size in
     emit (Serial_print "r, g, b, a: ") ;;
     emit (Serial_println stringColor) ;;
     emit (writeValue Color (Buf bytes size)) ;;
     modify (set_previousColor stringColor)).

(** *** [loop()]

    The sketch is either at the top of [loop()], waiting for a central,
    or inside [while (central.connected())], serving that central. *)

Inductive Control : Type :=
| Waiting
| Serving (central : string).

Inductive Link : Type := Disconnected | Connected.

Definition link (pc : Control) : Link :=
  match pc with Waiting => Disconnected | Serving _ => Connected end.

(** The test of the scheduler, on [long] values; undefined when the
  subtraction overflows. *)
Definition due (currentMillis previous : Z) : option bool :=
  match long_sub currentMillis previous with
  | Some elapsed => Some (UPDATE_FREQUENCY <=? elapsed)
  | None => None
  end.

(** The body of [while (central.connected())]. *)
Definition scheduler : M unit :=
  now <- ask millis ;;
  let currentMillis := long_of_ulong now in
  previous <- gets previousMillis ;;
  fire <- defined (due currentMillis previous) ;;
  when fire
    (modify (set_previousMillis currentMillis) ;;
     emit UpdateCycle ;;
     updateReadings).

(** One pass: one call of [BLE.central()] at the top of [loop()], or one
    evaluation of [central.connected()] and what follows it. *)
Definition step (pc : Control) : M Control :=
  match pc with
  | Waiting =>
      central <- ask BLE_central ;;
      match central with
      | Some address =>
          emit (Serial_print "Connected to central MAC: ") ;;
          emit (Serial_println address) ;;
          emit (digitalWrite true) ;;
          modify (set_LED_BUILTIN true) ;;
          ret (Serving address)
      | None => ret Waiting
      end
  | Serving address =>
      alive <- ask central_connected ;;
      if alive then
        scheduler ;;
        ret (Serving address)
      else
        emit (digitalWrite false) ;;
        modify (set_LED_BUILTIN false) ;;
        emit (Serial_print "Disconnected from central MAC: ") ;;
        emit (Serial_println address) ;;
        ret Waiting
  end.

(** A record of one pass. *)
Record Pass : Type := mkPass {
  pass_world : World;
  pass_control : Control;     (* before the pass *)
  pass_state : State;         (* before the pass *)
  pass_control' : Control;    (* after *)
  pass_state' : State;        (* after *)
  pass_events : list Event
}.

(** Runs the sketch against the successive answers of the hardware. *)
Fixpoint run (ws : list World) (pc : Control) (st : State)
  : option (list Pass) :=
  match ws with
  | [] => Some []
  | w :: ws' =>
      match step pc w st with
      | None => None
      | Some (pc', st', evs) =>
          match run ws' pc' st' with
          | None => None
          | Some ps => Some (mkPass w pc st pc' st' evs :: ps)
          end
      end
  end.

(** Successive update cycles from a given state. *)
Record Cycle : Type := mkCycle {
  cycle_world : World;
  cycle_state : State;        (* before the cycle *)
  cycle_state' : State;       (* after *)
  cycle_events : list Event
}.

Fixpoint run_cycles (ws : list World) (st : State) : option (list Cycle) :=
  match ws with
  | [] => Some []
  | w :: ws' =>
      match updateReadings w st with
      | None => None
      | Some (_, st', evs) =>
          match run_cycles ws' st' with
          | None => None
          | Some cs => Some (mkCycle w st st' evs :: cs)
          end
      end
  end.

End Sketch.

(* ===================================================================== *)
(** ** The codecs as the design document words them *)
(* ===================================================================== *)

Module Wording.

(** [encoded = round(raw_celsius * 100) + round(calibration_celsius * 100)],
    on the numbers the two floats stand for. *)
Definition temperature (t c : Float32.float) : option Z :=
  match Float32.to_Q t, Float32.to_Q c with
  | Some qt, Some qc =>
      Some (QInt.round (qt * 100) + QInt.round (qc * 100))
  | _, _ => None
  end.

(** [encoded = round(raw_percent * 100)]. *)
Definition humidity (h : Float32.float) : option Z :=
  match Float32.to_Q h with
  | Some qh => Some (QInt.round (qh * 100))
  | None => None
  end.

(** [encoded = round(raw_kilopascals * 1000 * 10)]. *)
Definition pressure (p : Float32.float) : option Z :=
  match Float32.to_Q p with
  | Some qp => Some (QInt.round (qp * 1000 * 10))
  | None => None
  end.

End Wording.

(* ===================================================================== *)
(** ** Observations on states and traces *)
(* ===================================================================== *)

Module Filter.

Import Sketch.

(** An encoded value: a number for the three numeric channels, the text
    for Color. *)
Inductive Value : Type :=
| Number (z : Z)
| Text (s : string).

(** The value the sketch remembers as last written on a channel. *)
Definition lastPublished (c : Channel) (st : State) : Value :=
  match c with
  | Temperature => Number (previousTemperature st)
  | Humidity => Number (previousHumidity st)
  | Pressure => Number (previousPressure st)
  | Color => Text (previousColor st)
  end.

Definition value_of {A} (f : A -> Value) (o : option (A * State * list Event))
  : option Value :=
  match o with
  | Some (x, _, _) => Some (f x)
  | None => None
  end.

(** The value an update cycle started in [st] against [w] computes for a
    channel: the result of the channel's codec, and for Color the text
    built from the globals that [getColor] has just filled. *)
Definition encoded (c : Channel) (w : World) (st : State) : option Value :=
  match c with
  | Temperature => value_of Number (getTemperature CALIBRATION_FACTOR w st)
  | Humidity => value_of Number (getHumidity w st)
  | Pressure => value_of Number (getPressure w st)
  | Color =>
      match getColor w st with
      | Some (_, st1, _) =>
          Some (Text (colorString (r st1) (g st1) (b st1) (a st1)))
      | None => None
      end
  end.

(** What is handed to [writeValue] for an encoded value. *)
Definition payload (v : Value) : Payload :=
  match v with
  | Number z => Num z
  | Text s =>
      Buf (WString.getBytes s (S (String.length s))) (S (String.length s))
  end.

(** The change filter on one cycle and one channel: a write happens
    exactly when the encoded value differs from the remembered one, it
    carries the encoded value, and the remembered value changes exactly
    then. *)
Definition filtered (c : Channel) (cy : Cycle) : Prop :=
  exists v,
    encoded c (cycle_world cy) (cycle_state cy) = Some v /\
    (publishes c (cycle_events cy) = true
     <-> v <> lastPublished c (cycle_state cy)) /\
    written c (cycle_events cy)
    = (if publishes c (cycle_events cy) then [payload v] else []) /\
    lastPublished c (cycle_state' cy)
    = (if publishes c (cycle_events cy) then v
       else lastPublished c (cycle_state cy)).

(** Consecutive cycles: each starts in the state the previous one left. *)
Fixpoint chained (st : State) (cs : list Cycle) : Prop :=
  match cs with
  | [] => True
  | cy :: rest => cycle_state cy = st /\ chained (cycle_state' cy) rest
  end.

(** The filter memory is as the initialisers leave it. *)
Definition fresh (st : State) : Prop :=
  previousTemperature st = 0 /\ previousHumidity st = 0 /\
  previousPressure st = 0 /\ previousColor st = EmptyString.

(** Milliseconds from one reading of the 32-bit clock to a later one. *)
Definition elapsed (t0 t1 : Z) : Z := (t1 - t0) mod 2 ^ CInt.width.

(** The events of one cycle, given what it computed. *)
Definition announce (label : string) (c : Channel) (text : string)
           (p : Payload) (changed : bool) : list Event :=
  if changed
  then [Serial_print label; Serial_println text; writeValue c p]
  else [].

(** The text of the colour reading of a pass. *)
Definition colorText (w : World) : string :=
  let '(cr, cg, cb, ca) := APDS_readColor w in colorString cr cg cb ca.

(** The value a cycle computes for each channel, out of its locals. *)
Definition computed (c : Channel) (t h p : Z) (w : World) : Value :=
  match c with
  | Temperature => Number t
  | Humidity => Number h
  | Pressure => Number p
  | Color => Text (colorText w)
  end.

(** State and events of a cycle that computed [t], [h] and [p]. *)
Definition after_cycle (t h p : Z) (c : Z * Z * Z * Z) (st : State) : State :=
  let '(cr, cg, cb, ca) := c in
  mkState t h p (colorString cr cg cb ca) cr cg cb ca
          (previousMillis st) (LED_BUILTIN st).

Definition cycle_trace (t h p : Z) (w : World) (st : State) : list Event :=
  let '(cr, cg, cb, ca) := APDS_readColor w in
  let sc := colorString cr cg cb ca in
  repeat (delay 5) (APDS_busy w)
  ++ announce "Temperature: " Temperature (WString.of_int t) (Num t)
              (negb (t =? previousTemperature st))
  ++ announce "Humidity: " Humidity (WString.of_int h) (Num h)
              (negb (h =? previousHumidity st))
  ++ announce "Pressure: " Pressure (WString.of_int p) (Num p)
              (negb (p =? previousPressure st))
  ++ announce "r, g, b, a: " Color sc (payload (Text sc))
              (negb (String.eqb sc (previousColor st))).

(** A trace with no characteristic write and no update cycle. *)
Definition silent (evs : list Event) : Prop :=
  filter is_write evs = [] /\ cycles evs = 0%nat.

(** The gate of the link on one pass: a pass begun while disconnected is
    silent, and a pass that is not silent was begun and ended connected,
    after [central.connected()] answered true. *)
Definition gated (p : Pass) : Prop :=
  (link (pass_control p) = Disconnected -> silent (pass_events p)) /\
  (~ silent (pass_events p) ->
   link (pass_control p) = Connected /\
   central_connected (pass_world p) = true /\
   link (pass_control' p) = Connected).

(** The readings of a pass are within what the conversions to integers
    and the addition of the calibration are defined on. *)
Definition convertible (w : World) : bool :=
  match Float32.to_int
          (Float32.mul (HTS_readTemperature w) (Float32.of_int 100)),
        Float32.to_int
          (Float32.mul CALIBRATION_FACTOR (Float32.of_int 100)),
        Float32.to_uint
          (Float32.mul (HTS_readHumidity w) (Float32.of_int 100)),
        Float32.to_uint
          (Float32.mul (Float32.mul (BARO_readPressure w) (Float32.of_int 1000))
                       (Float32.of_int 10)) with
  | Some x, Some y, Some _, Some _ =>
      match CInt.int_add x y with Some _ => true | None => false end
  | _, _, _, _ => false
  end.

End Filter.

(** Concrete hardware answers used in the examples: 21.5 degrees, 45.23 %,
  101.325 kPa, and a given colour reading. *)
Module Bench.

Import Sketch.

Definition world (t h p : Float32.float) (c : Z * Z * Z * Z) : World :=
  {| BLE_central := None; central_connected := true; millis := 0;
     HTS_readTemperature := t; HTS_readHumidity := h;
     BARO_readPressure := p; APDS_busy := 0; APDS_readColor := c |}.

Definition t_21_5 : Float32.float :=
  Eval vm_compute in Float32.of_ratio 215 10.
Definition h_45_23 : Float32.float :=
  Eval vm_compute in Float32.of_ratio 4523 100.
Definition p_101_325 : Float32.float :=
  Eval vm_compute in Float32.of_ratio 101325 1000.

Definition nominal (c : Z * Z * Z * Z) : World :=
  world t_21_5 h_45_23 p_101_325 c.

(** 21.5078125, 45.2265625 and 101 + 1/1024: binary fractions, so the
    floats are these numbers exactly. *)
Definition t_21_5078125 : Float32.float :=
  Eval vm_compute in Float32.of_ratio 2753 128.
Definition h_45_2265625 : Float32.float :=
  Eval vm_compute in Float32.of_ratio 5789 128.
Definition p_101_0009765625 : Float32.float :=
  Eval vm_compute in Float32.of_ratio 103425 1024.

(** 4.0 degrees: with the calibration of -4.0 it encodes to zero. *)
Definition t_4_0 : Float32.float := Eval vm_compute in Float32.of_int 4.

(** A clock reading [ms] with a central connected. *)
Definition at_time (ms : Z) (w : World) : World :=
  {| BLE_central := BLE_central w; central_connected := true; millis := ms;
     HTS_readTemperature := HTS_readTemperature w;
     HTS_readHumidity := HTS_readHumidity w;
     BARO_readPressure := BARO_readPressure w;
     APDS_busy := APDS_busy w; APDS_readColor := APDS_readColor w |}.

(** The central has gone. *)
Definition dropped (w : World) : World :=
  {| BLE_central := BLE_central w; central_connected := false;
     millis := millis w;
     HTS_readTemperature := HTS_readTemperature w;
     HTS_readHumidity := HTS_readHumidity w;
     BARO_readPressure := BARO_readPressure w;
     APDS_busy := APDS_busy w; APDS_readColor := APDS_readColor w |}.

(** A session: nobody there, a central connects, an update cycle runs,
    the central goes, nobody there. *)
Definition session : list World :=
  [nominal (1, 2, 3, 4);
   {| BLE_central := Some "c8:2a:14:00:00:01"%string;
      central_connected := true; millis := 900;
      HTS_readTemperature := t_21_5; HTS_readHumidity := h_45_23;
      BARO_readPressure := p_101_325;
      APDS_busy := 1; APDS_readColor := (1, 2, 3, 4) |};
   at_time 2500 (nominal (100, 200, 300, 50));
   dropped (nominal (5, 6, 7, 8));
   at_time 9000 (nominal (5, 6, 7, 8))].

End Bench.

(* ===================================================================== *)
(** ** Whole sessions *)
(* ===================================================================== *)

Module Session.

Import CInt Sketch Filter.

(** Everything a run emitted, and where it ended. *)
Definition run_events (ps : list Pass) : list Event :=
  flat_map pass_events ps.

Definition final_state (st : State) (ps : list Pass) : State :=
  last (map pass_state' ps) st.

(** No payload equals the one before it, [prev] standing before the
    first. *)
Fixpoint no_repeat (prev : Payload) (l : list Payload) : Prop :=
  match l with
  | [] => True
  | p :: rest => p <> prev /\ no_repeat p rest
  end.

(** Clock readings that never go back, starting at or after [t], in the
    first 2^31 ms after power-up. *)
Fixpoint steady (t : Z) (ws : list World) : Prop :=
  match ws with
  | [] => True
  | w :: ws' => t <= millis w < 2 ^ (width - 1) /\ steady (millis w) ws'
  end.

(** The last clock reading of a run, [t] when there is none. *)
Definition last_clock (t : Z) (ws : list World) : Z :=
  last (map millis ws) t.

(** [BLECharacteristic colorCharacteristic(..., BLERead | BLENotify, 24)]:
    the size of the value the Color characteristic is declared with. *)
Definition colorCharacteristic_valueSize : nat := 24.

(** The colour sensor's channels are unsigned 16-bit
    ("Get color as (4) unsigned 16-bit ints"). *)
Definition uint16 (v : Z) : bool := (0 <=? v) && (v <=? 65535).

Definition uint16_reading (c : Z * Z * Z * Z) : bool :=
  let '(cr, cg, cb, ca) := c in
  uint16 cr && uint16 cg && uint16 cb && uint16 ca.

(** The decimal text of [v] has from one to five characters. *)
Definition five_digits (v : N) : bool :=
  ((1 <=? String.length (WString.of_int (Z.of_N v)))
   && (String.length (WString.of_int (Z.of_N v)) <=? 5))%nat.

(** Checks [five_digits] on 0, 1, ..., n - 1; returns [n] and the
    verdict. *)
Definition scan (n : N) : N * bool :=
  N.iter n (fun s => (N.succ (fst s), snd s && five_digits (fst s)))
         (0%N, true).

(** What holds of control point and globals all along a run from
    power-up: the LED shows the link, and every remembered number is
    within its C type. *)
Definition consistent (pc : Control) (st : State) : Prop :=
  (LED_BUILTIN st = true <-> link pc = Connected) /\
  in_int (previousMillis st) = true /\
  in_int (previousTemperature st) = true /\
  in_uint (previousHumidity st) = true /\
  in_uint (previousPressure st) = true.

(** A text without a comma. *)
Fixpoint comma_free (s : string) : Prop :=
  match s with
  | EmptyString => True
  | String ch rest => ch <> ","%char /\ comma_free rest
  end.

(** A central arrives at time [ms]. *)
Definition arrival (mac : string) (ms : Z) (w : World) : World :=
  {| BLE_central := Some mac; central_connected := true; millis := ms;
     HTS_readTemperature := HTS_readTemperature w;
     HTS_readHumidity := HTS_readHumidity w;
     BARO_readPressure := BARO_readPressure w;
     APDS_busy := APDS_busy w; APDS_readColor := APDS_readColor w |}.

(** Six passes with the clock running on: idle, a central arrives, three
    passes while it is connected, and it leaves. *)
Definition watch : list World :=
  [Bench.at_time 100 (Bench.nominal (1, 2, 3, 4));
   arrival "c8:2a:14:00:00:01" 900 (Bench.nominal (1, 2, 3, 4));
   Bench.at_time 2500 (Bench.nominal (100, 200, 300, 50));
   Bench.at_time 3000 (Bench.nominal (5, 6, 7, 8));
   Bench.at_time 4600 (Bench.nominal (5, 6, 7, 8));
   Bench.dropped (Bench.at_time 5000 (Bench.nominal (5, 6, 7, 8)))].

End Session.

(* ===================================================================== *)
(** ** Start-up *)
(* ===================================================================== *)

Module Setup.

Import Sketch Filter.

(** The four devices [setup()] initialises, in this order. *)
Inductive Device : Type := HTS | BARO | APDS | BLE.

(** What the hardware answers during start-up. *)
Record Boot : Type := mkBoot {
  HTS_begin : bool;
  BARO_begin : bool;
  APDS_begin : bool;
  BLE_begin : bool;
  BLE_address : string
}.

Definition answer (d : Device) (hw : Boot) : bool :=
  match d with
  | HTS => HTS_begin hw
  | BARO => BARO_begin hw
  | APDS => APDS_begin hw
  | BLE => BLE_begin hw
  end.

(** [BLEService environmentService("181A");] *)
Definition environmentService : string := "181A".

(** The calls [setup()] makes. *)
Inductive Call : Type :=
| Serial_begin (baud : Z)
| Begin (d : Device)                           (* HTS.begin(), ... *)
| BARO_readPressure
| pinMode_OUTPUT                               (* of the LED pin *)
| BLE_setLocalName (name : string)
| BLE_setAdvertisedService (service : string)
| addCharacteristic (c : Channel)
| addDescriptor (c : Channel) (uuid value : string)
| BLE_addService (service : string)
| setValue (c : Channel) (v : Value)
| BLE_advertise
| Log (e : Event).                             (* prints and delays *)

(** A start-up computation: the calls made, and a result unless the
    sketch has entered [while (1);], which it never leaves. *)
Definition Init (A : Type) : Type := Boot -> list Call * option A.

Definition done {A} (x : A) : Init A := fun _ => ([], Some x).

Definition andThen {A B} (m : Init A) (k : A -> Init B) : Init B :=
  fun hw =>
    match m hw with
    | (t1, Some x) => let (t2, y) := k x hw in (t1 ++ t2, y)
    | (t1, None) => (t1, None)
    end.

Declare Scope init_scope.
Delimit Scope init_scope with init.
Notation "x <- m ;; k" := (andThen m (fun x => k))
  (at level 61, m at next level, right associativity) : init_scope.
Notation "m ;; k" := (andThen m (fun _ => k))
  (at level 61, right associativity) : init_scope.
Local Open Scope init_scope.

Definition call (c : Call) : Init unit := fun _ => ([c], Some tt).
Definition begin (d : Device) : Init bool :=
  fun hw => ([Begin d], Some (answer d hw)).
Definition address : Init string := fun hw => ([], Some (BLE_address hw)).
Definition println (s : string) : Init unit := call (Log (Serial_println s)).
Definition spin {A} : Init A := fun _ => ([], None).
Definition unless (ok : bool) (m : Init unit) : Init unit :=
  if ok then done tt else m.

Definition setup : Init unit :=
  call (Serial_begin 9600) ;;

  ok <- begin HTS ;;
  unless ok
    (println "Failed to initialize humidity temperature sensor!" ;; spin) ;;

  ok <- begin BARO ;;
  unless ok (println "Failed to initialize pressure sensor!" ;; spin) ;;

  call BARO_readPressure ;;
  call (Log (delay 1000)) ;;

  ok <- begin APDS ;;
  unless ok (println "Failed to initialize color sensor!" ;; spin) ;;

  call pinMode_OUTPUT ;;

  ok <- begin BLE ;;
  unless ok (println "starting BLE failed!" ;; spin) ;;

  call (BLE_setLocalName "ArduinoNano33BLESense") ;;
  call (BLE_setAdvertisedService environmentService) ;;

  call (addCharacteristic Temperature) ;;
  call (addCharacteristic Humidity) ;;
  call (addCharacteristic Pressure) ;;
  call (addCharacteristic Color) ;;

  call (addDescriptor Color "2901" "16-bit ints: r, g, b, a") ;;

  call (BLE_addService environmentService) ;;

  call (setValue Temperature (Number 0)) ;;
  call (setValue Humidity (Number 0)) ;;
  call (setValue Pressure (Number 0)) ;;
  call (setValue Color (Text "")) ;;

  call BLE_advertise ;;
  call (Log (Serial_print "Peripheral device MAC: ")) ;;
  mac <- address ;;
  println mac ;;
  println "Waiting for connections...".

(** The calls of a start-up, and whether [setup()] returns. *)
Definition calls (hw : Boot) : list Call := fst (setup hw).
Definition returns (hw : Boot) : bool :=
  match snd (setup hw) with Some _ => true | None => false end.

(** The message printed when a device fails to begin. *)
Definition failure (d : Device) : string :=
  match d with
  | HTS => "Failed to initialize humidity temperature sensor!"
  | BARO => "Failed to initialize pressure sensor!"
  | APDS => "Failed to initialize color sensor!"
  | BLE => "starting BLE failed!"
  end.

(** The devices begun before [d]. *)
Definition earlier (d : Device) : list Device :=
  match d with
  | HTS => []
  | BARO => [HTS]
  | APDS => [HTS; BARO]
  | BLE => [HTS; BARO; APDS]
  end.

(** A call that configures or starts the BLE service. *)
Definition configures_BLE (c : Call) : bool :=
  match c with
  | BLE_setLocalName _ | BLE_setAdvertisedService _ | addCharacteristic _
  | addDescriptor _ _ _ | BLE_addService _ | setValue _ _ | BLE_advertise =>
      true
  | _ => false
  end.

End Setup.

(* ===================================================================== *)
(** ** Floats, rationals and truncation *)
(* ===================================================================== *)

Section FloatValue.

Local Open Scope Q_scope.

Lemma Qpower2_nonneg (e : Z) :
  (0 <= e)%Z -> 2 ^ e == inject_Z (2 ^ e).
Proof.
  intros He. symmetry. exact (Zpower_Qpower 2 e He).
Qed.

Lemma scaled_up (k e : Z) :
  (0 <= e)%Z -> inject_Z k * 2 ^ e == inject_Z (k * 2 ^ e).
Proof.
  intros He. rewrite inject_Z_mult, (Qpower2_nonneg e He). reflexivity.
Qed.

Lemma scaled_down (k : Z) (p : positive) :
  inject_Z k * 2 ^ (Zneg p) == inject_Z k / inject_Z (2 ^ Zpos p).
Proof.
  change (Zneg p) with (- Zpos p)%Z.
  rewrite Qpower_opp, (Qpower2_nonneg (Zpos p)) by (apply Pos2Z.is_nonneg).
  reflexivity.
Qed.

(** The magnitude [m * 2^e], floored, is the shifted mantissa. *)
Lemma floor_magnitude (m : positive) (e : Z) :
  Qfloor (inject_Z (Zpos m) * 2 ^ e) = Z.shiftl (Zpos m) e.
Proof.
  destruct e as [|p|p].
  - rewrite (Qfloor_comp _ _ (scaled_up (Zpos m) 0 (Z.le_refl 0))).
    rewrite Qfloor_Z, Z.shiftl_mul_pow2 by lia. reflexivity.
  - rewrite (Qfloor_comp _ _ (scaled_up (Zpos m) (Zpos p) (Pos2Z.is_nonneg p))).
    rewrite Qfloor_Z, Z.shiftl_mul_pow2 by lia. reflexivity.
  - rewrite (Qfloor_comp _ _ (scaled_down (Zpos m) p)).
    rewrite <- Zdiv_Qdiv, Z.shiftl_div_pow2 by lia. reflexivity.
Qed.

Lemma magnitude_pos (m : positive) (e : Z) :
  0 < inject_Z (Zpos m) * 2 ^ e.
Proof.
  apply Qmult_lt_0_compat.
  - reflexivity.
  - apply Qpower_0_lt. reflexivity.
Qed.

(** The integral part computed on mantissa and exponent is the number
    the float stands for, truncated toward zero. *)
Lemma trunc_truncate (x : Float32.float) (z : Z) (q : Q) :
  Float32.trunc x = Some z -> Float32.to_Q x = Some q ->
  z = QInt.truncate q.
Proof.
  destruct x as [s|s| |s m e]; simpl; try discriminate.
  - intros Hz Hq. inversion Hz. inversion Hq. reflexivity.
  - intros Hz Hq. inversion Hz as [Hz']. inversion Hq as [Hq']. clear Hz Hq.
    unfold QInt.truncate.
    pose proof (magnitude_pos m e) as Hpos.
    destruct s; simpl cond_Zopp.
    + assert (Hneg : inject_Z (Zneg m) * 2 ^ e == - (inject_Z (Zpos m) * 2 ^ e)).
      { change (inject_Z (Zneg m)) with (- inject_Z (Zpos m)). ring. }
      destruct (Qle_bool 0 (inject_Z (Zneg m) * 2 ^ e)) eqn:Hle.
      * apply Qle_bool_iff in Hle. rewrite Hneg in Hle.
        exfalso. apply (Qlt_irrefl 0).
        apply Qlt_le_trans with (1 := Hpos).
        apply (Qopp_le_compat 0) in Hle.
        rewrite Qopp_involutive in Hle. exact Hle.
      * unfold Qceiling.
        rewrite (Qfloor_comp _ (inject_Z (Zpos m) * 2 ^ e)).
        -- rewrite floor_magnitude. reflexivity.
        -- rewrite Hneg. apply Qopp_involutive.
    + destruct (Qle_bool 0 (inject_Z (Zpos m) * 2 ^ e)) eqn:Hle.
      * symmetry. apply floor_magnitude.
      * exfalso. apply Qlt_le_weak in Hpos.
        apply Qle_bool_iff in Hpos. congruence.
Qed.

Lemma trunc_finite (x : Float32.float) (q : Q) :
  Float32.to_Q x = Some q -> Float32.trunc x = Some (QInt.truncate q).
Proof.
  intros Hq.
  destruct (Float32.trunc x) as [z|] eqn:Hz.
  - f_equal. exact (trunc_truncate x z q Hz Hq).
  - destruct x; simpl in *; discriminate.
Qed.

Lemma trunc_defined (x : Float32.float) (z : Z) :
  Float32.trunc x = Some z ->
  exists q, Float32.to_Q x = Some q /\ z = QInt.truncate q.
Proof.
  intros Hz.
  destruct (Float32.to_Q x) as [q|] eqn:Hq.
  - exists q. split; [reflexivity | exact (trunc_truncate x z q Hz Hq)].
  - destruct x; simpl in *; discriminate.
Qed.

End FloatValue.

(* ===================================================================== *)
(** ** The value codecs *)
(* ===================================================================== *)

Section Codecs.

Import CInt Sketch.

Lemma wrap_signed_in_range (z : Z) :
  in_int z = true -> wrap_signed z = z.
Proof.
  unfold in_int, INT_MIN, INT_MAX, wrap_signed, width.
  intros H. apply andb_prop in H. destruct H as [Hlo Hhi].
  apply Z.leb_le in Hlo. apply Z.leb_le in Hhi.
  change (2 ^ (32 - 1)) with 2147483648 in *.
  change (2 ^ 32) with 4294967296.
  rewrite Z.mod_small by lia. lia.
Qed.

Lemma wrap_signed_range (z : Z) : in_int (wrap_signed z) = true.
Proof.
  unfold in_int, INT_MIN, INT_MAX, wrap_signed, width.
  change (2 ^ (32 - 1)) with 2147483648.
  change (2 ^ 32) with 4294967296.
  pose proof (Z.mod_pos_bound (z + 2147483648) 4294967296 eq_refl).
  apply andb_true_intro. split; apply Z.leb_le; lia.
Qed.

Lemma to_int_truncate (x : Float32.float) (q : Q) :
  Float32.to_Q x = Some q -> in_int (QInt.truncate q) = true ->
  Float32.to_int x = Some (QInt.truncate q).
Proof.
  intros Hq Hr. unfold Float32.to_int.
  rewrite (trunc_finite x q Hq), Hr. reflexivity.
Qed.

Lemma to_int_defined (x : Float32.float) (z : Z) :
  Float32.to_int x = Some z ->
  exists q, Float32.to_Q x = Some q /\ z = QInt.truncate q /\ in_int z = true.
Proof.
  unfold Float32.to_int. intros H.
  destruct (Float32.trunc x) as [k|] eqn:Hk; [|discriminate].
  destruct (in_int k) eqn:Hr; [|discriminate].
  inversion H; subst k.
  destruct (trunc_defined x z Hk) as [q [Hq Hz]].
  exists q. auto.
Qed.

Lemma to_uint_truncate (x : Float32.float) (q : Q) :
  Float32.to_Q x = Some q -> in_uint (QInt.truncate q) = true ->
  Float32.to_uint x = Some (QInt.truncate q).
Proof.
  intros Hq Hr. unfold Float32.to_uint.
  rewrite (trunc_finite x q Hq), Hr. reflexivity.
Qed.

Lemma to_uint_defined (x : Float32.float) (z : Z) :
  Float32.to_uint x = Some z ->
  exists q, Float32.to_Q x = Some q /\ z = QInt.truncate q /\ in_uint z = true.
Proof.
  unfold Float32.to_uint. intros H.
  destruct (Float32.trunc x) as [k|] eqn:Hk; [|discriminate].
  destruct (in_uint k) eqn:Hr; [|discriminate].
  inversion H; subst k.
  destruct (trunc_defined x z Hk) as [q [Hq Hz]].
  exists q. auto.
Qed.

(** The codecs as plain functions of the reading. *)
Lemma getTemperature_unfold calibration w st :
  getTemperature calibration w st
  = match Float32.to_int (Float32.mul (HTS_readTemperature w) (Float32.of_int 100)),
          Float32.to_int (Float32.mul calibration (Float32.of_int 100)) with
    | Some x, Some y =>
        match int_add x y with
        | Some n => Some (n, st, [])
        | None => None
        end
    | _, _ => None
    end.
Proof.
  unfold getTemperature, bind, ask, defined.
  destruct (Float32.to_int (Float32.mul (HTS_readTemperature w) _));
    [|reflexivity].
  destruct (Float32.to_int (Float32.mul calibration _)); [|reflexivity].
  destruct (int_add _ _); reflexivity.
Qed.

Lemma int_add_in_range (a b : Z) :
  in_int (a + b) = true -> int_add a b = Some (a + b).
Proof. unfold int_add. intros ->. reflexivity. Qed.

Lemma int_add_defined (a b n : Z) :
  int_add a b = Some n -> n = a + b /\ in_int n = true.
Proof.
  unfold int_add. destruct (in_int (a + b)) eqn:E; [|discriminate].
  intros H. inversion H. subst. auto.
Qed.

Lemma in_int16_in_int (z : Z) : in_int16 z = true -> in_int z = true.
Proof.
  unfold in_int16, in_int, INT_MIN, INT_MAX, width.
  change (2 ^ (32 - 1)) with 2147483648.
  intros H. apply andb_prop in H. destruct H as [Hlo Hhi].
  apply Z.leb_le in Hlo. apply Z.leb_le in Hhi.
  apply andb_true_intro. split; apply Z.leb_le; lia.
Qed.

Lemma in_uint16_in_uint (z : Z) : in_uint16 z = true -> in_uint z = true.
Proof.
  unfold in_uint16, in_uint, UINT_MAX, width.
  change (2 ^ 32) with 4294967296.
  intros H. apply andb_prop in H. destruct H as [Hlo Hhi].
  apply Z.leb_le in Hlo. apply Z.leb_le in Hhi.
  apply andb_true_intro. split; apply Z.leb_le; lia.
Qed.

Lemma getHumidity_unfold w st :
  getHumidity w st
  = match Float32.to_uint (Float32.mul (HTS_readHumidity w) (Float32.of_int 100)) with
    | Some x => Some (x, st, [])
    | None => None
    end.
Proof.
  unfold getHumidity, bind, ask, defined.
  destruct (Float32.to_uint _); reflexivity.
Qed.

Lemma getPressure_unfold w st :
  getPressure w st
  = match Float32.to_uint
            (Float32.mul (Float32.mul (BARO_readPressure w) (Float32.of_int 1000))
                         (Float32.of_int 10)) with
    | Some x => Some (x, st, [])
    | None => None
    end.
Proof.
  unfold getPressure, bind, ask, defined.
  destruct (Float32.to_uint _); reflexivity.
Qed.

(** C2, as the sketch has it.  The temperature codec discards the
    fraction of each binary32 product (it does not round to nearest):
    whenever the two truncated products and their sum fit in signed 16
    bits, the codec returns the sum of the truncated products, a signed
    16-bit centi-degree value, changes no global and emits nothing;
    whatever it returns is the sum of the two truncated products; and a
    reading of 21.5 with the calibration of -4.0 encodes to 1750. *)
Theorem getTemperature_truncates :
  (forall calibration w st qt qc,
      Float32.to_Q (Float32.mul (HTS_readTemperature w) (Float32.of_int 100))
      = Some qt ->
      Float32.to_Q (Float32.mul calibration (Float32.of_int 100)) = Some qc ->
      in_int16 (QInt.truncate qt) = true ->
      in_int16 (QInt.truncate qc) = true ->
      in_int16 (QInt.truncate qt + QInt.truncate qc) = true ->
      getTemperature calibration w st
      = Some (QInt.truncate qt + QInt.truncate qc, st, []))
  /\ (forall calibration w st n st' evs,
         getTemperature calibration w st = Some (n, st', evs) ->
         exists qt qc,
           Float32.to_Q (Float32.mul (HTS_readTemperature w) (Float32.of_int 100))
           = Some qt /\
           Float32.to_Q (Float32.mul calibration (Float32.of_int 100)) = Some qc /\
           n = QInt.truncate qt + QInt.truncate qc)
  /\ (forall w st,
         HTS_readTemperature w = Bench.t_21_5 ->
         getTemperature CALIBRATION_FACTOR w st = Some (1750, st, [])).
Proof.
  split; [|split].
  - intros calibration w st qt qc Hqt Hqc Ht Hc Hsum.
    rewrite getTemperature_unfold.
    rewrite (to_int_truncate _ _ Hqt (in_int16_in_int _ Ht)),
      (to_int_truncate _ _ Hqc (in_int16_in_int _ Hc)).
    rewrite (int_add_in_range _ _ (in_int16_in_int _ Hsum)). reflexivity.
  - intros calibration w st n st' evs H.
    rewrite getTemperature_unfold in H.
    destruct (Float32.to_int (Float32.mul (HTS_readTemperature w) _))
      as [x|] eqn:Hx; [|discriminate].
    destruct (Float32.to_int (Float32.mul calibration _))
      as [y|] eqn:Hy; [|discriminate].
    destruct (int_add x y) as [m|] eqn:Hm; [|discriminate].
    inversion H; subst.
    destruct (to_int_defined _ _ Hx) as [qt [Hqt [Ex _]]].
    destruct (to_int_defined _ _ Hy) as [qc [Hqc [Ey _]]].
    destruct (int_add_defined _ _ _ Hm) as [En _].
    exists qt, qc. subst x y. auto.
  - intros w st Hw. rewrite getTemperature_unfold, Hw. reflexivity.
Qed.

Lemma getTemperature_truncates_witness :
  getTemperature CALIBRATION_FACTOR
                 (Bench.nominal (100, 200, 300, 50)) initial
  = Some (1750, initial, []).
Proof.
  exact (proj1 getTemperature_truncates CALIBRATION_FACTOR
               (Bench.nominal (100, 200, 300, 50)) initial
               (8806400 # 4096)%Q (-13107200 # 32768)%Q
               eq_refl eq_refl eq_refl eq_refl eq_refl).
Defined.

(** C2 as worded fails: at 21.5078125 degrees the product with 100 is
    2150.78125 exactly; the sketch returns 2150 - 400 = 1750 where
    rounding to nearest gives 2151 - 400 = 1751. *)
Lemma getTemperature_not_rounded :
  getTemperature CALIBRATION_FACTOR
    (Bench.world Bench.t_21_5078125 Bench.h_45_23 Bench.p_101_325 (0, 0, 0, 0))
    initial
  = Some (1750, initial, [])
  /\ Wording.temperature Bench.t_21_5078125 CALIBRATION_FACTOR = Some 1751
  /\ Float32.to_Q (Float32.mul Bench.t_21_5078125 (Float32.of_int 100))
     = Some (8809600 # 4096)%Q.
Proof. repeat split; vm_compute; reflexivity. Qed.

(** C7, as the sketch has it.  The humidity codec discards the fraction
    of the binary32 product (it does not round to nearest): whenever the
    truncated product fits in unsigned 16 bits the codec returns it, an
    unsigned 16-bit centi-percent value, changes no global and emits
    nothing; whatever it returns is that truncated product; and a reading
    of 45.23 encodes to 4523. *)
Theorem getHumidity_truncates :
  (forall w st q,
      Float32.to_Q (Float32.mul (HTS_readHumidity w) (Float32.of_int 100))
      = Some q ->
      in_uint16 (QInt.truncate q) = true ->
      getHumidity w st = Some (QInt.truncate q, st, []))
  /\ (forall w st n st' evs,
         getHumidity w st = Some (n, st', evs) ->
         exists q,
           Float32.to_Q (Float32.mul (HTS_readHumidity w) (Float32.of_int 100))
           = Some q /\
           n = QInt.truncate q)
  /\ (forall w st,
         HTS_readHumidity w = Bench.h_45_23 ->
         getHumidity w st = Some (4523, st, [])).
Proof.
  split; [|split].
  - intros w st q Hq Hr. rewrite getHumidity_unfold.
    rewrite (to_uint_truncate _ _ Hq (in_uint16_in_uint _ Hr)). reflexivity.
  - intros w st n st' evs H. rewrite getHumidity_unfold in H.
    destruct (Float32.to_uint _) as [x|] eqn:Hx; [|discriminate].
    inversion H; subst.
    destruct (to_uint_defined _ _ Hx) as [q [Hq [En _]]].
    exists q. auto.
  - intros w st Hw. rewrite getHumidity_unfold, Hw. reflexivity.
Qed.

Lemma getHumidity_truncates_witness :
  getHumidity (Bench.nominal (100, 200, 300, 50)) initial
  = Some (4523, initial, []).
Proof.
  exact (proj1 getHumidity_truncates
               (Bench.nominal (100, 200, 300, 50)) initial
               (9263104 # 2048)%Q eq_refl eq_refl).
Defined.

(** C7 as worded fails: at 45.2265625 % the product with 100 is
    4522.65625 exactly; the sketch returns 4522 where rounding to
    nearest gives 4523. *)
Lemma getHumidity_not_rounded :
  getHumidity
    (Bench.world Bench.t_21_5 Bench.h_45_2265625 Bench.p_101_325 (0, 0, 0, 0))
    initial
  = Some (4522, initial, [])
  /\ Wording.humidity Bench.h_45_2265625 = Some 4523
  /\ Float32.to_Q (Float32.mul Bench.h_45_2265625 (Float32.of_int 100))
     = Some (9262400 # 2048)%Q.
Proof. repeat split; vm_compute; reflexivity. Qed.

(** C6, as the sketch has it.  The pressure codec multiplies by 1000 and
    then by 10 in binary32 and discards the fraction of the result:
    whenever the truncated product fits in an [unsigned int] the codec
    returns it, changes no global and emits nothing; whatever it returns
    is that truncated product; and a reading of 101.325 kPa encodes to
    1013250. *)
Theorem getPressure_truncates :
  (forall w st q,
      Float32.to_Q
        (Float32.mul (Float32.mul (BARO_readPressure w) (Float32.of_int 1000))
                     (Float32.of_int 10))
      = Some q ->
      in_uint (QInt.truncate q) = true ->
      getPressure w st = Some (QInt.truncate q, st, []))
  /\ (forall w st n st' evs,
         getPressure w st = Some (n, st', evs) ->
         exists q,
           Float32.to_Q
             (Float32.mul (Float32.mul (BARO_readPressure w) (Float32.of_int 1000))
                          (Float32.of_int 10))
           = Some q /\
           n = QInt.truncate q /\ in_uint n = true)
  /\ (forall w st,
         BARO_readPressure w = Bench.p_101_325 ->
         getPressure w st = Some (1013250, st, [])).
Proof.
  split; [|split].
  - intros w st q Hq Hr. rewrite getPressure_unfold.
    rewrite (to_uint_truncate _ _ Hq Hr). reflexivity.
  - intros w st n st' evs H. rewrite getPressure_unfold in H.
    destruct (Float32.to_uint _) as [x|] eqn:Hx; [|discriminate].
    inversion H; subst. exact (to_uint_defined _ _ Hx).
  - intros w st Hw. rewrite getPressure_unfold, Hw. reflexivity.
Qed.

Lemma getPressure_truncates_witness :
  getPressure (Bench.nominal (100, 200, 300, 50)) initial
  = Some (1013250, initial, []).
Proof.
  exact (proj1 getPressure_truncates
               (Bench.nominal (100, 200, 300, 50)) initial
               (16212000 # 16)%Q eq_refl eq_refl).
Defined.

(** C6 as worded fails: at 101 + 1/1024 kPa the reading times 10000 is
    1010009.765625; the sketch's two products give 1010009.75 and it
    returns 1010009 where rounding to nearest gives 1010010. *)
Lemma getPressure_not_rounded :
  getPressure
    (Bench.world Bench.t_21_5 Bench.h_45_23 Bench.p_101_0009765625 (0, 0, 0, 0))
    initial
  = Some (1010009, initial, [])
  /\ Wording.pressure Bench.p_101_0009765625 = Some 1010010
  /\ Float32.to_Q
       (Float32.mul (Float32.mul Bench.p_101_0009765625 (Float32.of_int 1000))
                    (Float32.of_int 10))
     = Some (16160156 # 16)%Q.
Proof. repeat split; vm_compute; reflexivity. Qed.

End Codecs.

(* ===================================================================== *)
(** ** One update cycle *)
(* ===================================================================== *)

Section UpdateCycle.

Import CInt Sketch Filter.

Lemma repeat_delay (n : nat) (w : World) (st : State) :
  repeat_ n (emit (delay 5)) w st = Some (tt, st, repeat (delay 5) n).
Proof.
  induction n as [|n IH]; simpl.
  - reflexivity.
  - unfold bind. simpl. rewrite IH. reflexivity.
Qed.

Lemma getColor_unfold (w : World) (st : State) :
  getColor w st
  = Some (tt,
          (let '(cr, cg, cb, ca) := APDS_readColor w in
           set_rgba cr cg cb ca st),
          repeat (delay 5) (APDS_busy w)).
Proof.
  unfold getColor, bind, ask. rewrite repeat_delay.
  destruct (APDS_readColor w) as [[[cr cg] cb] ca]. simpl.
  rewrite app_nil_r. reflexivity.
Qed.

(** An update cycle is defined exactly when its three conversions are,
    and then ends in [after_cycle] having emitted [cycle_trace]. *)
Lemma updateReadings_unfold (w : World) (st : State) :
  updateReadings w st
  = match getTemperature CALIBRATION_FACTOR w st,
          getHumidity w st, getPressure w st with
    | Some (t, _, _), Some (h, _, _), Some (p, _, _) =>
        Some (tt, after_cycle t h p (APDS_readColor w) st,
              cycle_trace t h p w st)
    | _, _, _ => None
    end.
Proof.
  unfold updateReadings.
  unfold bind at 1.
  rewrite getTemperature_unfold.
  destruct (Float32.to_int (Float32.mul (HTS_readTemperature w) _)) as [z|];
    [|reflexivity].
  destruct (Float32.to_int (Float32.mul CALIBRATION_FACTOR _)) as [z0|];
    [|reflexivity].
  destruct (int_add z z0) as [t|]; [|reflexivity].
  unfold bind at 1.
  rewrite getHumidity_unfold.
  destruct (Float32.to_uint _) as [h|]; [|reflexivity].
  unfold bind at 1.
  rewrite getPressure_unfold.
  destruct (Float32.to_uint _) as [p|]; [|reflexivity].
  unfold bind at 1.
  rewrite getColor_unfold.
  unfold after_cycle, cycle_trace.
  destruct (APDS_readColor w) as [[[cr cg] cb] ca].
  unfold bind, gets, when, emit, modify, ret, announce, payload.
  cbn [previousTemperature previousHumidity previousPressure previousColor
       r g b a previousMillis LED_BUILTIN set_rgba].
  destruct (t =? previousTemperature st) eqn:Et;
    destruct (h =? previousHumidity st) eqn:Eh;
    destruct (p =? previousPressure st) eqn:Ep;
    destruct (String.eqb (colorString cr cg cb ca) (previousColor st)) eqn:Ec;
    repeat (progress
              (cbn [negb previousTemperature previousHumidity previousPressure
                    previousColor r g b a previousMillis LED_BUILTIN
                    set_previousTemperature set_previousHumidity
                    set_previousPressure set_previousColor set_rgba app];
               rewrite ?Et, ?Eh, ?Ep, ?Ec));
    unfold set_rgba; rewrite ?app_nil_r;
    try (apply Z.eqb_eq in Et; rewrite <- Et);
    try (apply Z.eqb_eq in Eh; rewrite <- Eh);
    try (apply Z.eqb_eq in Ep; rewrite <- Ep);
    try (apply String.eqb_eq in Ec; rewrite <- Ec);
    reflexivity.
Qed.

(** *** Writes in a trace *)

Lemma written_app (c : Channel) (l1 l2 : list Event) :
  written c (l1 ++ l2) = written c l1 ++ written c l2.
Proof.
  induction l1 as [|e l1 IH]; simpl; [reflexivity|].
  destruct e; auto.
  destruct (Channel_eqb c c0); simpl; rewrite IH; reflexivity.
Qed.

Lemma written_delays (c : Channel) (n : nat) :
  written c (repeat (delay 5) n) = [].
Proof. induction n; simpl; auto. Qed.

Lemma written_announce (c c' : Channel) label text p changed :
  written c (announce label c' text p changed)
  = if changed && Channel_eqb c c' then [p] else [].
Proof.
  destruct changed; simpl; [|reflexivity].
  destruct (Channel_eqb c c'); reflexivity.
Qed.

Lemma written_In (c : Channel) (p : Payload) (evs : list Event) :
  In (writeValue c p) evs <-> In p (written c evs).
Proof.
  induction evs as [|e evs IH]; simpl; [tauto|].
  destruct e; simpl;
    try (rewrite <- IH; split; [intros [H|H]; [discriminate|exact H] | tauto]).
  destruct (Channel_eqb c c0) eqn:E.
  - assert (c = c0) by (destruct c, c0; simpl in E; congruence). subst c0.
    simpl. rewrite <- IH. split; intros [H|H]; auto.
    + inversion H. auto.
    + left. congruence.
  - rewrite <- IH. split; [intros [H|H]|]; auto.
    inversion H. subst. destruct c; discriminate.
Qed.

Lemma after_cycle_lastPublished c t h p w st :
  lastPublished c (after_cycle t h p (APDS_readColor w) st)
  = computed c t h p w.
Proof.
  unfold after_cycle, computed, colorText.
  destruct (APDS_readColor w) as [[[cr cg] cb] ca].
  destruct c; reflexivity.
Qed.

(** A cycle writes a channel once, with the computed value, when that
    value differs from the remembered one, and not at all otherwise. *)
Lemma written_cycle c t h p w st :
  (computed c t h p w = lastPublished c st /\
   written c (cycle_trace t h p w st) = [])
  \/ (computed c t h p w <> lastPublished c st /\
      written c (cycle_trace t h p w st) = [payload (computed c t h p w)]).
Proof.
  unfold cycle_trace, computed, colorText.
  destruct (APDS_readColor w) as [[[cr cg] cb] ca].
  rewrite !written_app, written_delays, !written_announce.
  destruct c; cbn [Channel_eqb andb lastPublished app];
    rewrite ?andb_false_r, ?andb_true_r; cbn [app].
  - destruct (t =? previousTemperature st) eqn:E; cbn [negb].
    + left. apply Z.eqb_eq in E. subst. auto.
    + right. apply Z.eqb_neq in E. split; [congruence | reflexivity].
  - destruct (h =? previousHumidity st) eqn:E; cbn [negb].
    + left. apply Z.eqb_eq in E. subst. auto.
    + right. apply Z.eqb_neq in E. split; [congruence | reflexivity].
  - destruct (p =? previousPressure st) eqn:E; cbn [negb].
    + left. apply Z.eqb_eq in E. subst. auto.
    + right. apply Z.eqb_neq in E. split; [congruence | reflexivity].
  - destruct (String.eqb (colorString cr cg cb ca) (previousColor st)) eqn:E;
      cbn [negb].
    + left. apply String.eqb_eq in E. rewrite E. auto.
    + right. apply String.eqb_neq in E. split; [congruence | reflexivity].
Qed.

Lemma encoded_computed c w st t h p s1 e1 s2 e2 s3 e3 :
  getTemperature CALIBRATION_FACTOR w st = Some (t, s1, e1) ->
  getHumidity w st = Some (h, s2, e2) ->
  getPressure w st = Some (p, s3, e3) ->
  encoded c w st = Some (computed c t h p w).
Proof.
  intros Ht Hh Hp. destruct c; simpl.
  - rewrite Ht. reflexivity.
  - rewrite Hh. reflexivity.
  - rewrite Hp. reflexivity.
  - rewrite getColor_unfold. unfold colorText.
    destruct (APDS_readColor w) as [[[cr cg] cb] ca]. reflexivity.
Qed.

(** What a defined cycle determines. *)
Lemma updateReadings_defined w st u st' evs :
  updateReadings w st = Some (u, st', evs) ->
  exists t h p,
    (forall c, encoded c w st = Some (computed c t h p w)) /\
    st' = after_cycle t h p (APDS_readColor w) st /\
    evs = cycle_trace t h p w st.
Proof.
  rewrite updateReadings_unfold. intros H.
  destruct (getTemperature CALIBRATION_FACTOR w st) as [[[t s1] e1]|] eqn:Ht;
    [|discriminate].
  destruct (getHumidity w st) as [[[h s2] e2]|] eqn:Hh; [|discriminate].
  destruct (getPressure w st) as [[[p s3] e3]|] eqn:Hp; [|discriminate].
  inversion H; subst. exists t, h, p. repeat split.
  intros c. exact (encoded_computed c w st t h p _ _ _ _ _ _ Ht Hh Hp).
Qed.

Lemma cycle_filtered c w st u st' evs :
  updateReadings w st = Some (u, st', evs) ->
  filtered c (mkCycle w st st' evs).
Proof.
  intros H. destruct (updateReadings_defined _ _ _ _ _ H)
    as [t [h [p [Henc [Hst Hev]]]]].
  exists (computed c t h p w). cbn [cycle_world cycle_state cycle_state' cycle_events].
  split; [apply Henc|].
  subst st' evs. unfold publishes. rewrite after_cycle_lastPublished.
  destruct (written_cycle c t h p w st) as [[Heq Hw] | [Hne Hw]]; rewrite Hw.
  - repeat split; auto; congruence.
  - repeat split; auto.
Qed.

Lemma run_cycles_filtered c ws : forall st cs,
  run_cycles ws st = Some cs ->
  Forall (filtered c) cs /\ chained st cs /\ List.length cs = List.length ws.
Proof.
  induction ws as [|w ws IH]; intros st cs H; simpl in H.
  - inversion H. simpl. auto.
  - destruct (updateReadings w st) as [[[u st'] evs]|] eqn:Hc; [|discriminate].
    destruct (run_cycles ws st') as [cs'|] eqn:Hr; [|discriminate].
    inversion H; subst. destruct (IH _ _ Hr) as [Hf [Hch Hl]].
    repeat split; simpl; auto.
    constructor; [exact (cycle_filtered c _ _ _ _ _ Hc) | exact Hf].
Qed.

(** C8.  The three numeric codecs are functions of the raw reading (and
    the calibration) alone: run against any two hardware answers that
    agree on the reading, from any two states of the globals, they are
    undefined together or return the same value; and they leave the
    globals as they found them and emit nothing.  The colour text of a
    cycle likewise depends on the colour reading alone. *)
Theorem codecs_pure :
  (forall calibration w1 w2 st1 st2,
      HTS_readTemperature w1 = HTS_readTemperature w2 ->
      (getTemperature calibration w1 st1 = None /\
       getTemperature calibration w2 st2 = None)
      \/ exists v, getTemperature calibration w1 st1 = Some (v, st1, []) /\
                   getTemperature calibration w2 st2 = Some (v, st2, []))
  /\ (forall w1 w2 st1 st2,
         HTS_readHumidity w1 = HTS_readHumidity w2 ->
         (getHumidity w1 st1 = None /\ getHumidity w2 st2 = None)
         \/ exists v, getHumidity w1 st1 = Some (v, st1, []) /\
                      getHumidity w2 st2 = Some (v, st2, []))
  /\ (forall w1 w2 st1 st2,
         BARO_readPressure w1 = BARO_readPressure w2 ->
         (getPressure w1 st1 = None /\ getPressure w2 st2 = None)
         \/ exists v, getPressure w1 st1 = Some (v, st1, []) /\
                      getPressure w2 st2 = Some (v, st2, []))
  /\ (forall w1 w2 st1 st2,
         APDS_readColor w1 = APDS_readColor w2 ->
         encoded Color w1 st1 = encoded Color w2 st2 /\
         encoded Color w1 st1 = Some (Text (colorText w1))).
Proof.
  split; [|split; [|split]].
  - intros calibration w1 w2 st1 st2 Hw.
    rewrite !getTemperature_unfold, Hw.
    destruct (Float32.to_int (Float32.mul (HTS_readTemperature w2) _));
      [|left; auto].
    destruct (Float32.to_int (Float32.mul calibration _)); [|left; auto].
    destruct (int_add _ _); [right; eauto | left; auto].
  - intros w1 w2 st1 st2 Hw. rewrite !getHumidity_unfold, Hw.
    destruct (Float32.to_uint _); [right; eauto | left; auto].
  - intros w1 w2 st1 st2 Hw. rewrite !getPressure_unfold, Hw.
    destruct (Float32.to_uint _); [right; eauto | left; auto].
  - intros w1 w2 st1 st2 Hw. unfold encoded, colorText.
    rewrite !getColor_unfold, Hw.
    destruct (APDS_readColor w2) as [[[cr cg] cb] ca]. split; reflexivity.
Qed.

Lemma codecs_pure_witness :
  exists v,
    getTemperature CALIBRATION_FACTOR (Bench.nominal (1, 2, 3, 4)) initial
    = Some (v, initial, []) /\
    getTemperature CALIBRATION_FACTOR (Bench.nominal (100, 200, 300, 50))
                   (set_previousTemperature 7 initial)
    = Some (v, set_previousTemperature 7 initial, []).
Proof.
  destruct (proj1 codecs_pure CALIBRATION_FACTOR
                  (Bench.nominal (1, 2, 3, 4))
                  (Bench.nominal (100, 200, 300, 50))
                  initial (set_previousTemperature 7 initial) eq_refl)
    as [[H _] | H].
  - vm_compute in H. discriminate H.
  - exact H.
Defined.

End UpdateCycle.

(* ===================================================================== *)
(** ** The change filter *)
(* ===================================================================== *)

Section ChangeFilter.

Import CInt Sketch Filter.

Lemma colorText_reading w cr cg cb ca :
  APDS_readColor w = (cr, cg, cb, ca) -> colorText w = colorString cr cg cb ca.
Proof. unfold colorText. intros ->. reflexivity. Qed.

Lemma append_nonempty (s1 s2 : string) :
  s1 <> EmptyString -> (s1 ++ s2)%string <> EmptyString.
Proof. destruct s1; [congruence | discriminate]. Qed.

Lemma append_comma_nonempty (s : string) :
  (s ++ ",")%string <> EmptyString.
Proof. destruct s; discriminate. Qed.

(** The colour text always holds its three commas, so it is never the
    empty text the filter starts from. *)
Lemma colorString_nonempty (vr vg vb va : Z) :
  colorString vr vg vb va <> EmptyString.
Proof.
  unfold colorString. apply append_nonempty, append_comma_nonempty.
Qed.

Lemma length_list_byte_of_string (s : string) :
  List.length (list_byte_of_string s) = String.length s.
Proof.
  unfold list_byte_of_string. rewrite length_map.
  induction s as [|ch s IH]; simpl; auto.
Qed.

(** With a buffer of one more than the length, [getBytes] copies the
    whole text and terminates it. *)
Lemma getBytes_whole (s : string) :
  WString.getBytes s (S (String.length s))
  = list_byte_of_string s ++ [Byte.x00].
Proof.
  unfold WString.getBytes.
  rewrite <- length_list_byte_of_string, firstn_all. reflexivity.
Qed.

(** C1.  Over every run of update cycles and on every channel, a cycle
    writes the characteristic exactly when the value it encoded differs
    from the value remembered as last written; the write carries that
    value; the remembered value changes exactly when the write happens;
    and each cycle starts from the state its predecessor left.  With two
    identical colour readings (100, 200, 300, 50) after start-up the
    first cycle writes the text 100,200,300,50 (with its terminator) and
    the second writes nothing on Color. *)
Theorem change_filter :
  (forall c ws st cs,
      run_cycles ws st = Some cs ->
      Forall (filtered c) cs /\ chained st cs /\
      List.length cs = List.length ws)
  /\ (forall w1 w2 cs,
         APDS_readColor w1 = (100, 200, 300, 50) ->
         APDS_readColor w2 = (100, 200, 300, 50) ->
         run_cycles [w1; w2] initial = Some cs ->
         map (fun cy => written Color (cycle_events cy)) cs
         = [[Buf (list_byte_of_string "100,200,300,50" ++ [Byte.x00]) 15]; []]).
Proof.
  split.
  - intros c ws st cs H. exact (run_cycles_filtered c ws st cs H).
  - intros w1 w2 cs H1 H2 H. simpl in H.
    destruct (updateReadings w1 initial) as [[[u1 st1] ev1]|] eqn:E1;
      [|discriminate].
    destruct (updateReadings w2 st1) as [[[u2 st2] ev2]|] eqn:E2;
      [|discriminate].
    inversion H; subst cs; clear H. simpl.
    destruct (updateReadings_defined _ _ _ _ _ E1) as [t1 [h1 [p1 [_ [S1 T1]]]]].
    destruct (updateReadings_defined _ _ _ _ _ E2) as [t2 [h2 [p2 [_ [S2 T2]]]]].
    assert (C1 : computed Color t1 h1 p1 w1 = Text "100,200,300,50").
    { simpl. rewrite (colorText_reading _ _ _ _ _ H1). reflexivity. }
    assert (C2 : computed Color t2 h2 p2 w2 = Text "100,200,300,50").
    { simpl. rewrite (colorText_reading _ _ _ _ _ H2). reflexivity. }
    assert (L1 : lastPublished Color st1 = Text "100,200,300,50").
    { rewrite S1, after_cycle_lastPublished. exact C1. }
    f_equal; [|f_equal].
    + rewrite T1.
      destruct (written_cycle Color t1 h1 p1 w1 initial) as [[Heq _]|[_ Hw]].
      * rewrite C1 in Heq. discriminate Heq.
      * rewrite Hw, C1. reflexivity.
    + rewrite T2.
      destruct (written_cycle Color t2 h2 p2 w2 st1) as [[_ Hw]|[Hne _]].
      * exact Hw.
      * rewrite C2, L1 in Hne. congruence.
Qed.

Lemma change_filter_witness :
  map (fun cy => written Color (cycle_events cy))
      (match run_cycles [Bench.nominal (100, 200, 300, 50);
                         Bench.nominal (100, 200, 300, 50)] initial with
       | Some cs => cs
       | None => []
       end)
  = [[Buf (list_byte_of_string "100,200,300,50" ++ [Byte.x00]) 15]; []].
Proof.
  exact (proj2 change_filter
               (Bench.nominal (100, 200, 300, 50))
               (Bench.nominal (100, 200, 300, 50)) _
               eq_refl eq_refl eq_refl).
Defined.

(** From a fresh filter the colour text is always written. *)
Lemma fresh_color_written w st u st' evs :
  fresh st ->
  updateReadings w st = Some (u, st', evs) ->
  written Color evs = [payload (Text (colorText w))].
Proof.
  intros [_ [_ [_ F4]]] H.
  destruct (updateReadings_defined _ _ _ _ _ H) as [t [h [p [_ [_ Hev]]]]].
  assert (Hne : computed Color t h p w <> lastPublished Color st).
  { simpl. rewrite F4. intros E. inversion E as [E'].
    unfold colorText in E'.
    destruct (APDS_readColor w) as [[[cr cg] cb] ca].
    exact (colorString_nonempty _ _ _ _ E'). }
  rewrite Hev.
  destruct (written_cycle Color t h p w st) as [[Heq _]|[_ Hw]];
    [contradiction | exact Hw].
Qed.

Lemma initial_fresh : fresh initial.
Proof. repeat split. Qed.

(** C3, as the sketch has it.  In the first cycle after start-up the
    Color channel is always written, because its text is never empty; a
    numeric channel is written exactly when its first encoded value is
    not zero, the value the filter already remembers. *)
Theorem first_reading :
  forall w st u st' evs,
    fresh st ->
    updateReadings w st = Some (u, st', evs) ->
    (forall c, c <> Color ->
               (publishes c evs = true <-> encoded c w st <> Some (Number 0)))
    /\ publishes Color evs = true
    /\ written Color evs = [payload (Text (colorText w))].
Proof.
  intros w st u st' evs [F1 [F2 [F3 F4]]] H.
  destruct (updateReadings_defined _ _ _ _ _ H) as [t [h [p [Henc [_ Hev]]]]].
  split; [|].
  - intros c Hc.
    destruct (cycle_filtered c _ _ _ _ _ H) as [v [Hv [Hiff _]]].
    cbn [cycle_world cycle_state cycle_events] in *.
    rewrite Hiff, Hv.
    assert (L : lastPublished c st = Number 0).
    { destruct c; simpl; try congruence. }
    rewrite L. split; congruence.
  - pose proof (fresh_color_written w st u st' evs
                  (conj F1 (conj F2 (conj F3 F4))) H) as Hw.
    unfold publishes. rewrite Hw. split; reflexivity.
Qed.

Lemma first_reading_witness :
  publishes Color
    (match updateReadings (Bench.nominal (100, 200, 300, 50)) initial with
     | Some (_, _, evs) => evs
     | None => []
     end) = true.
Proof.
  refine (proj1 (proj2 (first_reading (Bench.nominal (100, 200, 300, 50))
                                      initial tt _ _ _ eq_refl))).
  repeat split.
Defined.

(** C3 as worded fails: a first temperature reading of 4.0 degrees
    encodes, with the calibration of -4.0, to zero, and the first cycle
    after start-up writes nothing on Temperature. *)
Lemma first_reading_of_zero_unpublished :
  exists st' evs,
    updateReadings
      (Bench.world Bench.t_4_0 Bench.h_45_23 Bench.p_101_325 (100, 200, 300, 50))
      initial
    = Some (tt, st', evs)
    /\ encoded Temperature
         (Bench.world Bench.t_4_0 Bench.h_45_23 Bench.p_101_325 (100, 200, 300, 50))
         initial
       = Some (Number 0)
    /\ written Temperature evs = []
    /\ publishes Temperature evs = false.
Proof.
  eexists. eexists. split; [vm_compute; reflexivity|].
  repeat split.
Qed.

(** C10.  Every write on Color in an update cycle hands over the
    characters of the colour text followed by one NUL byte, with a length
    of one more than the text; so the length follows the digits of the
    reading: 8 bytes for (1, 2, 3, 4), 15 for (100, 200, 300, 50). *)
Theorem color_buffer :
  (forall w st u st' evs p,
      updateReadings w st = Some (u, st', evs) ->
      In (writeValue Color p) evs ->
      exists bytes size,
        p = Buf bytes size /\
        bytes = list_byte_of_string (colorText w) ++ [Byte.x00] /\
        size = S (String.length (colorText w)) /\
        List.length bytes = size /\
        last bytes Byte.xff = Byte.x00)
  /\ (forall w u st' evs,
         APDS_readColor w = (1, 2, 3, 4) ->
         updateReadings w initial = Some (u, st', evs) ->
         exists bytes, written Color evs = [Buf bytes 8])
  /\ (forall w u st' evs,
         APDS_readColor w = (100, 200, 300, 50) ->
         updateReadings w initial = Some (u, st', evs) ->
         exists bytes, written Color evs = [Buf bytes 15]).
Proof.
  split; [|split].
  - intros w st u st' evs p H Hin.
    destruct (updateReadings_defined _ _ _ _ _ H) as [t [h [q [_ [_ Hev]]]]].
    apply written_In in Hin. rewrite Hev in Hin.
    destruct (written_cycle Color t h q w st) as [[_ Hw]|[_ Hw]];
      rewrite Hw in Hin; simpl in Hin; [contradiction|].
    destruct Hin as [Hp|[]]. subst p. cbn [payload computed].
    exists (list_byte_of_string (colorText w) ++ [Byte.x00]),
           (S (String.length (colorText w))).
    pose proof (getBytes_whole (colorText w)) as G.
    unfold WString.getBytes in G.
    rewrite G, last_last, last_length, length_list_byte_of_string.
    repeat split.
  - intros w u st' evs Hw H.
    rewrite (fresh_color_written w initial u st' evs initial_fresh H), (colorText_reading _ _ _ _ _ Hw). eexists. reflexivity.
  - intros w u st' evs Hw H.
    rewrite (fresh_color_written w initial u st' evs initial_fresh H), (colorText_reading _ _ _ _ _ Hw). eexists. reflexivity.
Qed.

Lemma color_buffer_witness :
  exists bytes size,
    Buf (list_byte_of_string "100,200,300,50" ++ [Byte.x00]) 15
    = Buf bytes size /\
    bytes = list_byte_of_string
              (colorText (Bench.nominal (100, 200, 300, 50))) ++ [Byte.x00] /\
    size = S (String.length (colorText (Bench.nominal (100, 200, 300, 50)))) /\
    List.length bytes = size /\
    last bytes Byte.xff = Byte.x00.
Proof.
  refine (proj1 color_buffer (Bench.nominal (100, 200, 300, 50)) initial tt
                (after_cycle 1750 4523 1013250 (100, 200, 300, 50) initial)
                (cycle_trace 1750 4523 1013250
                             (Bench.nominal (100, 200, 300, 50)) initial)
                _ eq_refl _).
  apply written_In. left. reflexivity.
Defined.

End ChangeFilter.

(* ===================================================================== *)
(** ** The control loop *)
(* ===================================================================== *)

Section Loop.

Import CInt Sketch Filter.

(** *** Arithmetic of the 32-bit clock *)

Lemma wrap_signed_shift (z k : Z) :
  wrap_signed (z + k * 2 ^ width) = wrap_signed z.
Proof.
  unfold wrap_signed.
  replace (z + k * 2 ^ width + 2 ^ (width - 1))
    with (z + 2 ^ (width - 1) + k * 2 ^ width) by ring.
  rewrite Z.mod_add by (unfold width; lia). reflexivity.
Qed.

(** A clock reading below 2^31 converts to itself. *)
Lemma long_of_ulong_low (t : Z) :
  0 <= t < 2 ^ (width - 1) -> long_of_ulong t = t.
Proof.
  intros H. apply wrap_signed_in_range.
  unfold in_int, INT_MIN, INT_MAX, width in *.
  change (2 ^ (32 - 1)) with 2147483648 in *.
  apply andb_true_intro. split; apply Z.leb_le; lia.
Qed.

(** A clock reading from 2^31 on converts to a negative number. *)
Lemma long_of_ulong_high (t : Z) :
  2 ^ (width - 1) <= t < 2 ^ width -> long_of_ulong t = t - 2 ^ width.
Proof.
  intros H.
  replace t with (t - 2 ^ width + 1 * 2 ^ width) at 1 by ring.
  unfold long_of_ulong. rewrite wrap_signed_shift.
  apply wrap_signed_in_range.
  unfold in_int, INT_MIN, INT_MAX, width in *.
  change (2 ^ (32 - 1)) with 2147483648 in *.
  change (2 ^ 32) with 4294967296 in *.
  apply andb_true_intro. split; apply Z.leb_le; lia.
Qed.

Lemma long_sub_in_range (a b : Z) :
  in_int (a - b) = true -> long_sub a b = Some (a - b).
Proof. unfold long_sub. intros ->. reflexivity. Qed.


(** While the clock is below 2^31 and not behind the last tick, the test
    compares the time elapsed with the interval. *)
Lemma due_steady (p t : Z) :
  0 <= p <= t -> t < 2 ^ (width - 1) ->
  due (long_of_ulong t) p = Some (UPDATE_FREQUENCY <=? t - p).
Proof.
  intros Hp Ht. unfold due.
  rewrite long_of_ulong_low by lia.
  rewrite long_sub_in_range; [reflexivity|].
  unfold in_int, INT_MIN, INT_MAX, width in *.
  change (2 ^ (32 - 1)) with 2147483648 in *.
  apply andb_true_intro. split; apply Z.leb_le; lia.
Qed.

(** *** The passes of [loop()] *)

Lemma step_waiting (w : World) (st : State) :
  step Waiting w st
  = match BLE_central w with
    | Some address =>
        Some (Serving address, set_LED_BUILTIN true st,
              [Serial_print "Connected to central MAC: ";
               Serial_println address; digitalWrite true])
    | None => Some (Waiting, st, [])
    end.
Proof.
  unfold step, bind, ask. destruct (BLE_central w); reflexivity.
Qed.

Lemma step_dropped (address : string) (w : World) (st : State) :
  central_connected w = false ->
  step (Serving address) w st
  = Some (Waiting, set_LED_BUILTIN false st,
          [digitalWrite false;
           Serial_print "Disconnected from central MAC: ";
           Serial_println address]).
Proof.
  intros H. unfold step, bind, ask. rewrite H. reflexivity.
Qed.

Lemma scheduler_unfold (w : World) (st : State) :
  scheduler w st
  = match due (long_of_ulong (millis w)) (previousMillis st) with
    | Some true =>
        match updateReadings w
                (set_previousMillis (long_of_ulong (millis w)) st) with
        | Some (_, st', evs) => Some (tt, st', UpdateCycle :: evs)
        | None => None
        end
    | Some false => Some (tt, st, [])
    | None => None
    end.
Proof.
  unfold scheduler, bind, ask, gets, defined, when.
  destruct (due _ _) as [[|]|]; try reflexivity.
  unfold modify, emit.
  destruct (updateReadings w _) as [[[u st'] evs]|]; [|reflexivity].
  destruct u. reflexivity.
Qed.

Lemma step_serving (address : string) (w : World) (st : State) :
  central_connected w = true ->
  step (Serving address) w st
  = match scheduler w st with
    | Some (_, st', evs) => Some (Serving address, st', evs)
    | None => None
    end.
Proof.
  intros H. unfold step, bind at 1, ask. rewrite H.
  unfold bind, ret.
  destruct (scheduler w st) as [[[u st'] evs]|]; [|reflexivity].
  rewrite app_nil_r. reflexivity.
Qed.

(** *** Update cycles in a trace *)

Lemma filter_delays (f : Event -> bool) (n : nat) :
  f (delay 5) = false -> filter f (repeat (delay 5) n) = [].
Proof.
  intros H. induction n as [|n IH]; simpl; [reflexivity|].
  rewrite H. exact IH.
Qed.

Lemma cycle_trace_no_cycle t h p w st :
  filter is_cycle (cycle_trace t h p w st) = [].
Proof.
  unfold cycle_trace, announce.
  destruct (APDS_readColor w) as [[[cr cg] cb] ca].
  rewrite !filter_app, filter_delays by reflexivity.
  destruct (negb (t =? _)), (negb (h =? _)), (negb (p =? _)),
    (negb (String.eqb _ _)); reflexivity.
Qed.

Lemma after_cycle_previousMillis t h p c st :
  previousMillis (after_cycle t h p c st) = previousMillis st.
Proof. destruct c as [[[cr cg] cb] ca]. reflexivity. Qed.

(** What the scheduler does, when it is defined. *)
Lemma scheduler_defined w st u st' evs :
  scheduler w st = Some (u, st', evs) ->
  exists fire,
    due (long_of_ulong (millis w)) (previousMillis st) = Some fire /\
    cycles evs = (if fire then 1 else 0)%nat /\
    previousMillis st'
    = (if fire then long_of_ulong (millis w) else previousMillis st).
Proof.
  rewrite scheduler_unfold.
  destruct (due _ _) as [[|]|]; [| |discriminate].
  - destruct (updateReadings w _) as [[[u1 st1] ev1]|] eqn:E; [|discriminate].
    intros H. inversion H; subst. exists true.
    destruct (updateReadings_defined _ _ _ _ _ E) as [t [h [p [_ [S1 T1]]]]].
    subst. unfold cycles. simpl.
    rewrite cycle_trace_no_cycle, after_cycle_previousMillis. auto.
  - intros H. inversion H; subst. exists false. auto.
Qed.

Lemma convertible_defined w st :
  convertible w = true ->
  exists st' evs, updateReadings w st = Some (tt, st', evs).
Proof.
  unfold convertible. intros H.
  rewrite updateReadings_unfold, getTemperature_unfold, getHumidity_unfold,
    getPressure_unfold.
  destruct (Float32.to_int (Float32.mul (HTS_readTemperature w) _)) as [x|];
    [|discriminate].
  destruct (Float32.to_int (Float32.mul CALIBRATION_FACTOR _)) as [y|];
    [|discriminate].
  destruct (Float32.to_uint (Float32.mul (HTS_readHumidity w) _));
    [|destruct (int_add x y); discriminate].
  destruct (Float32.to_uint (Float32.mul (Float32.mul _ _) _));
    [|destruct (int_add x y); discriminate].
  destruct (int_add x y); [|discriminate].
  eexists. eexists. reflexivity.
Qed.

(** Each pass is either silent or one pass of the scheduler. *)
Lemma step_cases pc w st pc' st' evs :
  step pc w st = Some (pc', st', evs) ->
  (silent evs /\ (link pc = Connected -> central_connected w = false))
  \/ (exists address u,
         pc = Serving address /\ pc' = Serving address /\
         central_connected w = true /\
         scheduler w st = Some (u, st', evs)).
Proof.
  destruct pc as [|address].
  - rewrite step_waiting. intros H. left.
    destruct (BLE_central w); inversion H; subst;
      (split; [split; reflexivity | discriminate]).
  - destruct (central_connected w) eqn:Hc.
    + rewrite (step_serving _ _ _ Hc).
      destruct (scheduler w st) as [[[u s1] e1]|] eqn:Hs; [|discriminate].
      intros H. inversion H; subst. right. exists address, u. auto.
    + rewrite (step_dropped _ _ _ Hc). intros H. inversion H; subst.
      left. split; [split; reflexivity | reflexivity].
Qed.

End Loop.

(* ===================================================================== *)
(** ** Link gating, scheduling and disconnection *)
(* ===================================================================== *)

Section Lifecycle.

Import CInt Sketch Filter.

Lemma step_gated pc w st pc' st' evs :
  step pc w st = Some (pc', st', evs) ->
  gated (mkPass w pc st pc' st' evs).
Proof.
  intros H. unfold gated. cbn [pass_control pass_events pass_world pass_control'].
  destruct (step_cases _ _ _ _ _ _ H)
    as [[Hs _] | [address [u [Hpc [Hpc' [Hc _]]]]]].
  - split; [auto | contradiction].
  - subst pc pc'. split; [discriminate | auto].
Qed.

Lemma run_gated ws : forall pc st ps,
  run ws pc st = Some ps -> Forall gated ps.
Proof.
  induction ws as [|w ws IH]; intros pc st ps H; simpl in H.
  - inversion H. constructor.
  - destruct (step pc w st) as [[[pc' st'] evs]|] eqn:Hs; [|discriminate].
    destruct (run ws pc' st') as [ps'|] eqn:Hr; [|discriminate].
    inversion H; subst. constructor.
    + exact (step_gated _ _ _ _ _ _ Hs).
    + exact (IH _ _ _ Hr).
Qed.

(** C4.  In every run of the sketch, from start-up or from any other
    state, a pass begun while the link is Disconnected writes no
    characteristic and enters no update cycle, whatever the clock and
    the sensors say; a pass that does write or enter a cycle was begun
    Connected, after [central.connected()] answered true.  A pass begun
    Disconnected is always defined. *)
Theorem no_publish_while_disconnected :
  (forall ws pc st ps, run ws pc st = Some ps -> Forall gated ps)
  /\ (forall w st,
         exists pc' st' evs,
           step Waiting w st = Some (pc', st', evs) /\ silent evs).
Proof.
  split.
  - intros ws pc st ps H. exact (run_gated ws pc st ps H).
  - intros w st. rewrite step_waiting.
    destruct (BLE_central w); eexists; eexists; eexists;
      (split; [reflexivity | split; reflexivity]).
Qed.

Lemma no_publish_while_disconnected_witness :
  Forall gated
    (match run Bench.session
               Waiting initial with
     | Some ps => ps
     | None => []
     end).
Proof.
  apply (proj1 no_publish_while_disconnected Bench.session Waiting initial).
  vm_compute. reflexivity.
Defined.

(** C9.  A pass that takes the link from Connected to Disconnected
    changes nothing but the LED: the time of the last tick, the value
    remembered for every channel and the colour globals are as before,
    the LED is off, and nothing is written.  Such a pass happens whenever
    [central.connected()] answers false. *)
Theorem disconnect_frame :
  (forall pc w st pc' st' evs,
      step pc w st = Some (pc', st', evs) ->
      link pc = Connected -> link pc' = Disconnected ->
      st' = set_LED_BUILTIN false st /\
      previousMillis st' = previousMillis st /\
      (forall c, lastPublished c st' = lastPublished c st) /\
      (r st', g st', b st', a st') = (r st, g st, b st, a st) /\
      LED_BUILTIN st' = false /\
      filter is_write evs = [] /\
      In (digitalWrite false) evs)
  /\ (forall address w st,
         central_connected w = false ->
         exists evs,
           step (Serving address) w st
           = Some (Waiting, set_LED_BUILTIN false st, evs)).
Proof.
  split.
  - intros pc w st pc' st' evs H Hc Hd.
    destruct pc as [|address]; [discriminate|].
    destruct (central_connected w) eqn:Ha.
    + rewrite (step_serving _ _ _ Ha) in H.
      destruct (scheduler w st) as [[[u s1] e1]|]; [|discriminate].
      inversion H; subst. discriminate.
    + rewrite (step_dropped _ _ _ Ha) in H. inversion H; subst.
      repeat split; try (destruct c; reflexivity); simpl; auto.
  - intros address w st Ha. rewrite (step_dropped _ _ _ Ha).
    eexists. reflexivity.
Qed.

Lemma disconnect_frame_witness :
  exists evs,
    step (Serving "c8:2a:14:00:00:01")
         (Bench.dropped (Bench.nominal (5, 6, 7, 8)))
         (set_previousMillis 2500 (set_previousTemperature 1750 initial))
    = Some (Waiting,
            set_LED_BUILTIN false
              (set_previousMillis 2500 (set_previousTemperature 1750 initial)),
            evs).
Proof.
  exact (proj2 disconnect_frame "c8:2a:14:00:00:01"%string
               (Bench.dropped (Bench.nominal (5, 6, 7, 8)))
               (set_previousMillis 2500 (set_previousTemperature 1750 initial))
               eq_refl).
Defined.

Lemma cycles_le_1 pc w st pc' st' evs :
  step pc w st = Some (pc', st', evs) -> (cycles evs <= 1)%nat.
Proof.
  intros H.
  destruct (step_cases _ _ _ _ _ _ H)
    as [[[_ Hs] _] | [address [u [_ [_ [_ Hs]]]]]].
  - rewrite Hs. auto.
  - destruct (scheduler_defined _ _ _ _ _ Hs) as [fire [_ [Hc _]]].
    rewrite Hc. destruct fire; auto.
Qed.

(** C5.  The scheduler misses a tick that is due.  With no tick recorded
    yet ([previousMillis] is 0, as at power-up) and the clock reading
    2^31 ms or more, far more than the 2000 ms of the interval have
    elapsed; yet a connected pass enters no update cycle, emits nothing
    and leaves every global as it was, because the clock reading is
    converted to a negative [long] before it is compared.  This goes on
    for every clock reading up to 2^32 - 1. *)
Theorem scheduler_misses_due_tick :
  forall address w st,
    central_connected w = true ->
    previousMillis st = 0 ->
    2 ^ (width - 1) <= millis w < 2 ^ width ->
    UPDATE_FREQUENCY <= elapsed (previousMillis st) (millis w) /\
    step (Serving address) w st = Some (Serving address, st, []).
Proof.
  intros address w st Hc Hp Ht. split.
  - rewrite Hp. unfold elapsed, UPDATE_FREQUENCY, width in *.
    change (2 ^ (32 - 1)) with 2147483648 in *.
    change (2 ^ 32) with 4294967296 in *.
    rewrite Z.sub_0_r, Z.mod_small by lia. lia.
  - rewrite (step_serving _ _ _ Hc), scheduler_unfold, Hp.
    unfold due. rewrite (long_of_ulong_high _ Ht).
    assert (R : in_int (millis w - 2 ^ width - 0) = true).
    { unfold in_int, INT_MIN, INT_MAX, width in *.
      change (2 ^ (32 - 1)) with 2147483648 in *.
      change (2 ^ 32) with 4294967296 in *.
      apply andb_true_intro. split; apply Z.leb_le; lia. }
    rewrite (long_sub_in_range _ _ R).
    assert (E : (UPDATE_FREQUENCY <=? millis w - 2 ^ width - 0) = false).
    { apply Z.leb_gt. unfold UPDATE_FREQUENCY, width in *.
      change (2 ^ (32 - 1)) with 2147483648 in *.
      change (2 ^ 32) with 4294967296 in *. lia. }
    rewrite E. reflexivity.
Qed.

Lemma scheduler_misses_due_tick_witness :
  UPDATE_FREQUENCY <= elapsed (previousMillis initial) 2147488648 /\
  step (Serving "c8:2a:14:00:00:01")
       (Bench.at_time 2147488648 (Bench.nominal (100, 200, 300, 50))) initial
  = Some (Serving "c8:2a:14:00:00:01", initial, []).
Proof.
  refine (scheduler_misses_due_tick "c8:2a:14:00:00:01"%string
            (Bench.at_time 2147488648 (Bench.nominal (100, 200, 300, 50)))
            initial eq_refl eq_refl _).
  vm_compute. split; [discriminate | reflexivity].
Defined.

End Lifecycle.

(* ===================================================================== *)
(** ** Start-up: failures and order *)
(* ===================================================================== *)

Section StartUp.

Import Sketch Filter Setup.

Lemma answers_before (hw : Boot) (d : Device) :
  (forall d', In d' (earlier d) -> answer d' hw = true) ->
  forallb (fun d' => answer d' hw) (earlier d) = true.
Proof.
  intros H. apply forallb_forall. exact H.
Qed.

(** X1.  [setup()] returns, so that [loop()] can run, exactly when the
    humidity-temperature sensor, the pressure sensor, the colour sensor
    and the BLE stack all begin. *)
Theorem setup_returns_iff_all_begin :
  forall hw,
    returns hw
    = HTS_begin hw && BARO_begin hw && APDS_begin hw && BLE_begin hw.
Proof.
  intros [[] [] [] [] mac]; reflexivity.
Qed.

(** X2.  When a device fails to begin after the ones before it began,
    [setup()] never returns; the last thing it does is print that
    device's failure message; it has begun that device and the earlier
    ones and no later one; and it has made no call that configures the
    BLE service or starts advertising. *)
Theorem setup_stops_at_first_failure :
  forall hw d,
    answer d hw = false ->
    (forall d', In d' (earlier d) -> answer d' hw = true) ->
    returns hw = false /\
    last (calls hw) (Serial_begin 0) = Log (Serial_println (failure d)) /\
    (forall d', In (Begin d') (calls hw) <-> d' = d \/ In d' (earlier d)) /\
    forallb (fun c => negb (configures_BLE c)) (calls hw) = true.
Proof.
  intros hw d Hd He. apply answers_before in He.
  destruct hw as [h1 h2 h3 h4 mac].
  destruct d; simpl in Hd, He; subst;
    repeat match goal with
           | H : (?x && _)%bool = true |- _ =>
               let H1 := fresh in
               apply andb_prop in H; destruct H as [H1 H]; simpl in H1; subst
           end;
    (split; [reflexivity|]); (split; [reflexivity|]);
    (split; [|reflexivity]);
    intros d'; destruct d'; cbn;
      (split; [intros H; intuition discriminate
              | intros H; intuition (try discriminate; auto 10)]).
Qed.

Lemma setup_stops_at_first_failure_witness :
  last (calls (mkBoot true true false true "c8:2a:14:00:00:02"))
       (Serial_begin 0)
  = Log (Serial_println "Failed to initialize color sensor!").
Proof.
  refine (proj1 (proj2 (setup_stops_at_first_failure
                          (mkBoot true true false true "c8:2a:14:00:00:02")
                          APDS eq_refl _))).
  intros d' [H|[H|[]]]; subst d'; reflexivity.
Defined.

(** X3.  When [setup()] returns, it gave every characteristic exactly the
    value the change filter starts from (zero, and the empty text for
    Color), it added every characteristic and set its value before it
    started advertising, it configured nothing after that, and it printed
    the address of the device. *)
Theorem setup_initial_values :
  forall hw,
    returns hw = true ->
    (forall c v, In (setValue c v) (calls hw) <-> v = lastPublished c initial)
    /\ exists pre post,
        calls hw = pre ++ BLE_advertise :: post /\
        (forall c, In (addCharacteristic c) pre /\
                   In (setValue c (lastPublished c initial)) pre) /\
        forallb (fun c => negb (configures_BLE c)) post = true /\
        In (Log (Serial_println (BLE_address hw))) post.
Proof.
  intros hw H.
  destruct hw as [[] [] [] [] mac]; try (vm_compute in H; discriminate H).
  clear H.
  split.
  - intros c v. cbn. split.
    + intros H.
      repeat (destruct H as [H|H];
              [try discriminate H; inversion H; subst; reflexivity|]).
      contradiction.
    + intros ->. destruct c; cbn; auto 30.
  - exists (firstn 20 (calls (mkBoot true true true true mac))),
           (skipn 21 (calls (mkBoot true true true true mac))).
    split; [reflexivity|].
    split; [|split].
    + intros c. destruct c; cbn; auto 30.
    + reflexivity.
    + cbn. auto.
Qed.

Lemma setup_initial_values_witness :
  In (setValue Color (Text ""))
     (calls (mkBoot true true true true "c8:2a:14:00:00:02"))
  <-> Text "" = lastPublished Color initial.
Proof.
  exact (proj1 (setup_initial_values
                  (mkBoot true true true true "c8:2a:14:00:00:02") eq_refl)
               Color (Text "")).
Defined.

End StartUp.

(* ===================================================================== *)
(** ** What an update cycle leaves behind *)
(* ===================================================================== *)

Section CycleFacts.

Import CInt Sketch Filter Session.

Lemma getTemperature_range calibration w st n st' evs :
  getTemperature calibration w st = Some (n, st', evs) -> in_int n = true.
Proof.
  rewrite getTemperature_unfold.
  destruct (Float32.to_int (Float32.mul (HTS_readTemperature w) _)) as [x|];
    [|discriminate].
  destruct (Float32.to_int (Float32.mul calibration _)) as [y|];
    [|discriminate].
  destruct (int_add x y) as [m|] eqn:E; [|discriminate].
  intros H. inversion H. subst. exact (proj2 (int_add_defined _ _ _ E)).
Qed.

Lemma getHumidity_range w st n st' evs :
  getHumidity w st = Some (n, st', evs) -> in_uint n = true.
Proof.
  rewrite getHumidity_unfold.
  destruct (Float32.to_uint _) as [x|] eqn:E; [|discriminate].
  intros H. inversion H; subst.
  destruct (to_uint_defined _ _ E) as [q [_ [_ Hr]]]. exact Hr.
Qed.

Lemma getPressure_range w st n st' evs :
  getPressure w st = Some (n, st', evs) -> in_uint n = true.
Proof.
  rewrite getPressure_unfold.
  destruct (Float32.to_uint _) as [x|] eqn:E; [|discriminate].
  intros H. inversion H; subst.
  destruct (to_uint_defined _ _ E) as [q [_ [_ Hr]]]. exact Hr.
Qed.

(** A defined cycle, with the ranges of what it computed. *)
Lemma updateReadings_ranges w st u st' evs :
  updateReadings w st = Some (u, st', evs) ->
  exists t h p,
    in_int t = true /\ in_uint h = true /\ in_uint p = true /\
    st' = after_cycle t h p (APDS_readColor w) st /\
    evs = cycle_trace t h p w st.
Proof.
  rewrite updateReadings_unfold. intros H.
  destruct (getTemperature CALIBRATION_FACTOR w st) as [[[t s1] e1]|] eqn:Ht;
    [|discriminate].
  destruct (getHumidity w st) as [[[h s2] e2]|] eqn:Hh; [|discriminate].
  destruct (getPressure w st) as [[[p s3] e3]|] eqn:Hp; [|discriminate].
  inversion H; subst. exists t, h, p.
  repeat split.
  - exact (getTemperature_range _ _ _ _ _ _ Ht).
  - exact (getHumidity_range _ _ _ _ _ Hh).
  - exact (getPressure_range _ _ _ _ _ Hp).
Qed.

(** X4.  After an update cycle the filter remembers, on every channel,
    the value the cycle has just encoded, whether or not it wrote it; the
    colour globals hold the reading and the remembered colour text is
    their text; the remembered numbers are within their C types; and the
    cycle touches neither the time of the last tick nor the LED. *)
Theorem cycle_postcondition :
  forall w st u st' evs,
    updateReadings w st = Some (u, st', evs) ->
    (forall c, encoded c w st = Some (lastPublished c st')) /\
    (r st', g st', b st', a st') = APDS_readColor w /\
    previousColor st' = colorString (r st') (g st') (b st') (a st') /\
    in_int (previousTemperature st') = true /\
    in_uint (previousHumidity st') = true /\
    in_uint (previousPressure st') = true /\
    previousMillis st' = previousMillis st /\
    LED_BUILTIN st' = LED_BUILTIN st.
Proof.
  intros w st u st' evs H.
  destruct (updateReadings_defined _ _ _ _ _ H) as [t [h [p [Henc [Hst _]]]]].
  destruct (updateReadings_ranges _ _ _ _ _ H)
    as [t' [h' [p' [Rt [Rh [Rp [Hst' _]]]]]]].
  split.
  - intros c. rewrite Henc, Hst, after_cycle_lastPublished. reflexivity.
  - rewrite Hst'. unfold after_cycle.
    destruct (APDS_readColor w) as [[[cr cg] cb] ca]. cbn.
    repeat split; assumption.
Qed.

Lemma cycle_postcondition_witness :
  encoded Color (Bench.nominal (100, 200, 300, 50)) initial
  = Some (lastPublished Color
            (after_cycle 1750 4523 1013250 (100, 200, 300, 50) initial)).
Proof.
  exact (proj1 (cycle_postcondition
                  (Bench.nominal (100, 200, 300, 50)) initial tt
                  (after_cycle 1750 4523 1013250 (100, 200, 300, 50) initial)
                  _ eq_refl) Color).
Defined.

(** X5.  An update cycle run again against the same answers of the
    hardware writes no characteristic, prints nothing and leaves the
    globals as the first run left them: all it does is wait for the
    colour sensor. *)
Theorem cycle_idempotent :
  forall w st u st' evs,
    updateReadings w st = Some (u, st', evs) ->
    updateReadings w st' = Some (tt, st', repeat (delay 5) (APDS_busy w)).
Proof.
  intros w st u st' evs.
  rewrite !updateReadings_unfold, !getTemperature_unfold,
    !getHumidity_unfold, !getPressure_unfold.
  destruct (Float32.to_int (Float32.mul (HTS_readTemperature w) _)) as [x|];
    [|discriminate].
  destruct (Float32.to_int (Float32.mul CALIBRATION_FACTOR _)) as [y|];
    [|discriminate].
  destruct (int_add x y) as [t|]; [|discriminate].
  destruct (Float32.to_uint (Float32.mul (HTS_readHumidity w) _)) as [h|];
    [|discriminate].
  destruct (Float32.to_uint (Float32.mul (Float32.mul _ _) _)) as [p|];
    [|discriminate].
  intros H. inversion H; subst. clear H.
  unfold after_cycle, cycle_trace, announce.
  destruct (APDS_readColor w) as [[[cr cg] cb] ca].
  cbn [previousTemperature previousHumidity previousPressure previousColor
       previousMillis LED_BUILTIN].
  rewrite !Z.eqb_refl, String.eqb_refl. cbn [negb].
  rewrite !app_nil_r. reflexivity.
Qed.

Lemma cycle_idempotent_witness :
  updateReadings (Bench.nominal (100, 200, 300, 50))
                 (after_cycle 1750 4523 1013250 (100, 200, 300, 50) initial)
  = Some (tt, after_cycle 1750 4523 1013250 (100, 200, 300, 50) initial, []).
Proof.
  exact (cycle_idempotent (Bench.nominal (100, 200, 300, 50)) initial tt
                          _ _ eq_refl).
Defined.

End CycleFacts.

(* ===================================================================== *)
(** ** Whole sessions: what the filter guarantees over a run *)
(* ===================================================================== *)

Section SessionFacts.

Import CInt Sketch Filter Session.

Lemma list_byte_of_string_inj (s1 s2 : string) :
  list_byte_of_string s1 = list_byte_of_string s2 -> s1 = s2.
Proof.
  intros H. apply (f_equal string_of_list_byte) in H.
  rewrite !string_of_list_byte_of_string in H. exact H.
Qed.

(** Different values are handed to [writeValue] as different payloads. *)
Lemma payload_inj (v1 v2 : Value) : payload v1 = payload v2 -> v1 = v2.
Proof.
  destruct v1 as [z1|s1], v2 as [z2|s2]; cbn [payload]; intros H;
    try discriminate H.
  - inversion H. reflexivity.
  - inversion H as [[Hb Hl]]. clear Hl.
    pose proof (getBytes_whole s1) as G1. pose proof (getBytes_whole s2) as G2.
    unfold WString.getBytes in G1, G2. rewrite G1, G2 in Hb.
    apply app_inj_tail in Hb. destruct Hb as [Hb _].
    f_equal. exact (list_byte_of_string_inj _ _ Hb).
Qed.

Lemma last_cons_default {A} (x d : A) (l : list A) :
  last (x :: l) d = last l x.
Proof.
  revert x d. induction l as [|y l IH]; intros x d; [reflexivity|].
  change (last (x :: y :: l) d) with (last (y :: l) d).
  rewrite (IH y d), (IH y x). reflexivity.
Qed.

Lemma run_cons w ws pc st ps :
  run (w :: ws) pc st = Some ps ->
  exists pc' st' evs ps',
    step pc w st = Some (pc', st', evs) /\
    run ws pc' st' = Some ps' /\
    ps = mkPass w pc st pc' st' evs :: ps'.
Proof.
  simpl. destruct (step pc w st) as [[[pc' st'] evs]|] eqn:Hs; [|discriminate].
  destruct (run ws pc' st') as [ps'|] eqn:Hr; [|discriminate].
  intros H. inversion H. exists pc', st', evs, ps'.
  split; [reflexivity | split; [exact Hr | reflexivity]].
Qed.

Lemma lastPublished_set_previousMillis c v st :
  lastPublished c (set_previousMillis v st) = lastPublished c st.
Proof. destruct c; reflexivity. Qed.

Lemma lastPublished_set_LED c v st :
  lastPublished c (set_LED_BUILTIN v st) = lastPublished c st.
Proof. destruct c; reflexivity. Qed.

(** On each channel a pass either writes nothing and remembers what it
    remembered, or writes once, the value it now remembers, which is not
    the one it remembered before. *)
Lemma step_effect c pc w st pc' st' evs :
  step pc w st = Some (pc', st', evs) ->
  (written c evs = [] /\ lastPublished c st' = lastPublished c st)
  \/ (written c evs = [payload (lastPublished c st')] /\
      lastPublished c st' <> lastPublished c st).
Proof.
  destruct pc as [|address].
  - rewrite step_waiting.
    destruct (BLE_central w); intros H; inversion H; subst; left;
      split; reflexivity.
  - destruct (central_connected w) eqn:Hc.
    + rewrite (step_serving _ _ _ Hc), scheduler_unfold.
      destruct (due _ _) as [[|]|]; [| |discriminate].
      * destruct (updateReadings w _) as [[[u s1] e1]|] eqn:E; [|discriminate].
        intros H. inversion H; subst. clear H.
        destruct (updateReadings_defined _ _ _ _ _ E) as [t [h [p [_ [S1 T1]]]]].
        subst. cbn [written]. rewrite after_cycle_lastPublished.
        destruct (written_cycle c t h p w
                    (set_previousMillis (long_of_ulong (millis w)) st))
          as [[Heq Hw]|[Hne Hw]];
          rewrite lastPublished_set_previousMillis in *; auto.
      * intros H. inversion H; subst. left. auto.
    + rewrite (step_dropped _ _ _ Hc). intros H. inversion H; subst.
      left. split; [reflexivity | apply lastPublished_set_LED].
Qed.

Lemma run_events_cons (p : Pass) (ps : list Pass) :
  run_events (p :: ps) = pass_events p ++ run_events ps.
Proof. reflexivity. Qed.

Lemma final_state_cons st p ps :
  final_state st (p :: ps) = final_state (pass_state' p) ps.
Proof. unfold final_state. simpl map. apply last_cons_default. Qed.

(** X7.  Over any run of the sketch and on every channel, the value the
    filter remembers at the end is the last value written on the channel
    during the run, or the value remembered at the start when nothing was
    written: the memory never holds a value that was computed but not
    sent. *)
Theorem memory_is_last_write :
  forall c ws pc st ps,
    run ws pc st = Some ps ->
    (written c (run_events ps) = [] /\
     lastPublished c (final_state st ps) = lastPublished c st)
    \/ (exists before,
           written c (run_events ps)
           = before ++ [payload (lastPublished c (final_state st ps))]).
Proof.
  intros c ws. induction ws as [|w ws IH]; intros pc st ps H.
  - simpl in H. inversion H. left. split; reflexivity.
  - destruct (run_cons _ _ _ _ _ H) as [pc' [st' [evs [ps' [Hs [Hr Hp]]]]]].
    subst ps. rewrite run_events_cons, written_app, final_state_cons.
    cbn [pass_events pass_state'].
    destruct (step_effect c _ _ _ _ _ _ Hs) as [[Hw Hm]|[Hw _]]; rewrite Hw;
      destruct (IH _ _ _ Hr) as [[Hw' Hm']|[before Hw']]; rewrite Hw'.
    + left. split; [reflexivity | congruence].
    + right. exists before. reflexivity.
    + right. exists []. rewrite Hm'. reflexivity.
    + right. exists (payload (lastPublished c st') :: before). reflexivity.
Qed.

Lemma memory_is_last_write_witness :
  (written Color (run_events
                    (match run Bench.session Waiting initial with
                     | Some ps => ps
                     | None => []
                     end)) = [] /\
   lastPublished Color
     (final_state initial
        (match run Bench.session Waiting initial with
         | Some ps => ps
         | None => []
         end)) = lastPublished Color initial)
  \/ (exists before,
         written Color (run_events
                          (match run Bench.session Waiting initial with
                           | Some ps => ps
                           | None => []
                           end))
         = before ++
           [payload (lastPublished Color
                       (final_state initial
                          (match run Bench.session Waiting initial with
                           | Some ps => ps
                           | None => []
                           end)))]).
Proof.
  apply (memory_is_last_write Color Bench.session Waiting initial).
  vm_compute. reflexivity.
Defined.

(** X8.  Over any run of the sketch, no channel is ever written the same
    payload twice in a row, and the first payload written differs from
    the value remembered at the start: redundant transmissions are
    suppressed across cycles, connections and disconnections alike. *)
Theorem no_redundant_write :
  forall c ws pc st ps,
    run ws pc st = Some ps ->
    no_repeat (payload (lastPublished c st)) (written c (run_events ps)).
Proof.
  intros c ws. induction ws as [|w ws IH]; intros pc st ps H.
  - simpl in H. inversion H. exact I.
  - destruct (run_cons _ _ _ _ _ H) as [pc' [st' [evs [ps' [Hs [Hr Hp]]]]]].
    subst ps. rewrite run_events_cons, written_app.
    cbn [pass_events].
    pose proof (IH _ _ _ Hr) as Hrest.
    destruct (step_effect c _ _ _ _ _ _ Hs) as [[Hw Hm]|[Hw Hne]]; rewrite Hw.
    + rewrite <- Hm. exact Hrest.
    + cbn [app no_repeat]. split; [|exact Hrest].
      intros E. apply Hne. exact (payload_inj _ _ E).
Qed.

Lemma no_redundant_write_witness :
  no_repeat (payload (lastPublished Temperature initial))
            (written Temperature
               (run_events
                  (match run Bench.session Waiting initial with
                   | Some ps => ps
                   | None => []
                   end))).
Proof.
  apply (no_redundant_write Temperature Bench.session Waiting initial).
  vm_compute. reflexivity.
Defined.

(** *** The LED and the ranges *)

Lemma consistent_step pc w st pc' st' evs :
  consistent pc st ->
  step pc w st = Some (pc', st', evs) ->
  consistent pc' st'.
Proof.
  intros [HL [RM [RT [RH RP]]]]. unfold consistent.
  destruct pc as [|address].
  - rewrite step_waiting.
    destruct (BLE_central w); intros H; inversion H; subst; cbn.
    + repeat split; auto.
    + auto 10.
  - destruct (central_connected w) eqn:Hc.
    + rewrite (step_serving _ _ _ Hc), scheduler_unfold.
      destruct (due _ _) as [[|]|]; [| |discriminate].
      * destruct (updateReadings w _) as [[[u s1] e1]|] eqn:E; [|discriminate].
        intros H. inversion H; subst. clear H.
        destruct (updateReadings_ranges _ _ _ _ _ E)
          as [t [h [p [Rt [Rh [Rp [S1 _]]]]]]].
        subst st'. unfold after_cycle.
        destruct (APDS_readColor w) as [[[cr cg] cb] ca]. cbn.
        cbn in HL. repeat split; auto; try apply HL; auto.
        apply wrap_signed_range.
      * intros H. inversion H; subst. auto 10.
    + rewrite (step_dropped _ _ _ Hc). intros H. inversion H; subst. cbn.
      repeat split; auto; discriminate.
Qed.

(** X9.  From power-up on, after every pass of any run, the LED is on
    exactly when the link is Connected, the time of the last tick is
    within [long], and the remembered temperature, humidity and pressure
    are within [int] and [unsigned int]. *)
Theorem led_and_ranges_invariant :
  consistent Waiting initial
  /\ forall ws pc st ps,
      consistent pc st ->
      run ws pc st = Some ps ->
      Forall (fun p => consistent (pass_control' p) (pass_state' p)) ps.
Proof.
  split.
  - unfold consistent. cbn. repeat split; auto; discriminate.
  - intros ws. induction ws as [|w ws IH]; intros pc st ps Hc H.
    + simpl in H. inversion H. constructor.
    + destruct (run_cons _ _ _ _ _ H) as [pc' [st' [evs [ps' [Hs [Hr Hp]]]]]].
      subst ps. pose proof (consistent_step _ _ _ _ _ _ Hc Hs) as Hc'.
      constructor; [exact Hc' | exact (IH _ _ _ Hc' Hr)].
Qed.

Lemma led_and_ranges_invariant_witness :
  Forall (fun p => consistent (pass_control' p) (pass_state' p))
         (match run Bench.session Waiting initial with
          | Some ps => ps
          | None => []
          end).
Proof.
  apply (proj2 led_and_ranges_invariant Bench.session Waiting initial).
  - exact (proj1 led_and_ranges_invariant).
  - vm_compute. reflexivity.
Defined.

End SessionFacts.

(* ===================================================================== *)
(** ** The scheduler over time *)
(* ===================================================================== *)

Section Timing.

Import CInt Sketch Filter Session.



Lemma cycles_app (l1 l2 : list Event) :
  cycles (l1 ++ l2) = (cycles l1 + cycles l2)%nat.
Proof. unfold cycles. rewrite filter_app, length_app. reflexivity. Qed.

Lemma steady_weaken (p t : Z) (ws : list World) :
  p <= t -> steady t ws -> steady p ws.
Proof.
  destruct ws as [|w ws]; simpl; [auto|].
  intros Hp [[H1 H2] H3]. repeat split; auto; lia.
Qed.

Lemma last_clock_cons (p : Z) (w : World) (ws : list World) :
  last_clock p (w :: ws) = last_clock (millis w) ws.
Proof. unfold last_clock. simpl map. apply last_cons_default. Qed.

Lemma last_clock_mono (p t : Z) (ws : list World) :
  p <= t -> last_clock p ws <= last_clock t ws.
Proof.
  destruct ws as [|w ws]; intros H.
  - exact H.
  - rewrite !last_clock_cons. lia.
Qed.

(** While the clock has not wrapped, a pass either enters no cycle and
    keeps the time of the last tick, or enters one, at least 2000 ms
    after that time, and records the clock. *)
Lemma step_tick pc w st pc' st' evs :
  step pc w st = Some (pc', st', evs) ->
  0 <= previousMillis st <= millis w ->
  millis w < 2 ^ (width - 1) ->
  (cycles evs = 0%nat /\ previousMillis st' = previousMillis st)
  \/ (cycles evs = 1%nat /\ previousMillis st' = millis w /\
      UPDATE_FREQUENCY <= millis w - previousMillis st).
Proof.
  intros H Hp Ht.
  destruct pc as [|address].
  - rewrite step_waiting in H.
    destruct (BLE_central w); inversion H; subst; left; split; reflexivity.
  - destruct (central_connected w) eqn:Hc.
    + rewrite (step_serving _ _ _ Hc) in H.
      destruct (scheduler w st) as [[[u s1] e1]|] eqn:Hs; [|discriminate].
      inversion H; subst. clear H.
      destruct (scheduler_defined _ _ _ _ _ Hs) as [fire [Hd [Hn Hm]]].
      rewrite (due_steady _ _ Hp Ht) in Hd. inversion Hd as [Hf].
      rewrite Hn, Hm. rewrite long_of_ulong_low by lia.
      destruct (UPDATE_FREQUENCY <=? millis w - previousMillis st) eqn:E;
        subst fire.
      * right. apply Z.leb_le in E. auto.
      * left. auto.
    + rewrite (step_dropped _ _ _ Hc) in H. inversion H; subst.
      left. split; reflexivity.
Qed.

(** X11.  While the clock runs on without wrapping (the first 2^31 ms
    after power-up), the update cycles of any run are at least 2000 ms
    apart: their number times 2000 is at most the time from the last tick
    before the run to the last clock reading of the run. *)
Theorem cycles_rate_limited :
  forall ws pc st ps,
    run ws pc st = Some ps ->
    0 <= previousMillis st ->
    steady (previousMillis st) ws ->
    Z.of_nat (cycles (run_events ps)) * UPDATE_FREQUENCY
    <= last_clock (previousMillis st) ws - previousMillis st.
Proof.
  intros ws. induction ws as [|w ws IH]; intros pc st ps H H0 Hs.
  - simpl in H. inversion H. unfold last_clock. simpl. lia.
  - destruct (run_cons _ _ _ _ _ H) as [pc' [st' [evs [ps' [Hst [Hr Hp]]]]]].
    subst ps. destruct Hs as [[H1 H2] H3].
    rewrite run_events_cons, cycles_app, last_clock_cons.
    cbn [pass_events].
    destruct (step_tick _ _ _ _ _ _ Hst (conj H0 H1) H2)
      as [[Hn Hm]|[Hn [Hm Hd]]]; rewrite Hn.
    + assert (IH' := IH _ _ _ Hr).
      rewrite Hm in IH'. specialize (IH' H0 (steady_weaken _ _ _ H1 H3)).
      pose proof (last_clock_mono _ _ ws H1). simpl. lia.
    + assert (IH' := IH _ _ _ Hr).
      rewrite Hm in IH'. specialize (IH' (Z.le_trans _ _ _ H0 H1) H3).
      rewrite Nat2Z.inj_add. change (Z.of_nat 1) with 1. lia.
Qed.

Lemma cycles_rate_limited_witness :
  Z.of_nat (cycles (run_events
                      (match run watch Waiting initial with
                       | Some ps => ps
                       | None => []
                       end))) * UPDATE_FREQUENCY
  <= last_clock (previousMillis initial) watch - previousMillis initial.
Proof.
  apply (cycles_rate_limited watch Waiting initial).
  - vm_compute. reflexivity.
  - vm_compute. discriminate.
  - vm_compute. repeat split; discriminate.
Defined.

Lemma step_defined_steady pc w st :
  convertible w = true ->
  0 <= previousMillis st <= millis w ->
  millis w < 2 ^ (width - 1) ->
  exists pc' st' evs, step pc w st = Some (pc', st', evs).
Proof.
  intros Hv Hp Ht. destruct pc as [|address].
  - rewrite step_waiting. destruct (BLE_central w); eauto.
  - destruct (central_connected w) eqn:Hc.
    + rewrite (step_serving _ _ _ Hc), scheduler_unfold,
        (due_steady _ _ Hp Ht).
      destruct (UPDATE_FREQUENCY <=? _); [|eauto].
      destruct (convertible_defined w
                  (set_previousMillis (long_of_ulong (millis w)) st) Hv)
        as [st' [evs E]].
      rewrite E. eauto.
    + rewrite (step_dropped _ _ _ Hc). eauto.
Qed.

(** X6.  An update cycle is defined exactly when the three readings
    convert to integers and the addition of the calibration does not
    overflow.  So against hardware answers whose readings all convert,
    and while the clock runs on without going back and stays below
    2^31 ms, every run of the sketch is defined, pass by pass, from any
    control point: it meets neither an undefined conversion nor a signed
    overflow. *)
Theorem defined_iff_convertible :
  (forall w st,
      (exists st' evs, updateReadings w st = Some (tt, st', evs))
      <-> convertible w = true)
  /\ (forall ws pc st,
         Forall (fun w => convertible w = true) ws ->
         0 <= previousMillis st ->
         steady (previousMillis st) ws ->
         exists ps, run ws pc st = Some ps /\ List.length ps = List.length ws).
Proof.
  split.
  - intros w st. split.
    + intros [st' [evs H]]. unfold convertible.
      rewrite updateReadings_unfold, getTemperature_unfold, getHumidity_unfold,
        getPressure_unfold in H.
      destruct (Float32.to_int (Float32.mul (HTS_readTemperature w) _)) as [x|];
        [|discriminate].
      destruct (Float32.to_int (Float32.mul CALIBRATION_FACTOR _)) as [y|];
        [|discriminate].
      destruct (int_add x y); [|discriminate].
      destruct (Float32.to_uint (Float32.mul (HTS_readHumidity w) _));
        [|discriminate].
      destruct (Float32.to_uint (Float32.mul (Float32.mul _ _) _));
        [reflexivity | discriminate].
    + apply convertible_defined.
  - intros ws. induction ws as [|w ws IH]; intros pc st Hall H0 Hs.
    + exists []. split; reflexivity.
    + inversion Hall as [|w' ws' Hw Hws]; subst.
      destruct Hs as [[H1 H2] H3].
      destruct (step_defined_steady pc w st Hw (conj H0 H1) H2)
        as [pc' [st' [evs Hst]]].
      assert (Hnext : 0 <= previousMillis st' /\ steady (previousMillis st') ws).
      { destruct (step_tick _ _ _ _ _ _ Hst (conj H0 H1) H2)
          as [[_ Hm]|[_ [Hm _]]]; rewrite Hm.
        - split; [exact H0 | exact (steady_weaken _ _ _ H1 H3)].
        - split; [lia | exact H3]. }
      destruct Hnext as [H0' Hs'].
      destruct (IH pc' st' Hws H0' Hs') as [ps [Hr Hl]].
      exists (mkPass w pc st pc' st' evs :: ps).
      simpl. rewrite Hst, Hr, Hl. split; reflexivity.
Qed.

Lemma defined_iff_convertible_witness :
  exists ps,
    run watch Waiting initial = Some ps /\
    List.length ps = List.length watch.
Proof.
  apply (proj2 defined_iff_convertible watch Waiting initial).
  - repeat constructor.
  - vm_compute. discriminate.
  - vm_compute. repeat split; discriminate.
Defined.

(** X17.  While the clock is below 2^31 ms and not behind the recorded
    tick, a connected pass with convertible readings enters an update
    cycle, first recording the clock as the time of the tick, when at
    least 2000 ms have passed since the recorded tick; when fewer have
    passed it does nothing at all. *)
Theorem scheduler_fires_when_due :
  forall address w st,
    central_connected w = true ->
    convertible w = true ->
    0 <= previousMillis st <= millis w ->
    millis w < 2 ^ (width - 1) ->
    (UPDATE_FREQUENCY <= millis w - previousMillis st ->
     exists st' evs,
       step (Serving address) w st
       = Some (Serving address, st', UpdateCycle :: evs) /\
       updateReadings w (set_previousMillis (millis w) st)
       = Some (tt, st', evs) /\
       cycles (UpdateCycle :: evs) = 1%nat /\
       previousMillis st' = millis w) /\
    (millis w - previousMillis st < UPDATE_FREQUENCY ->
     step (Serving address) w st = Some (Serving address, st, [])).
Proof.
  intros address w st Hc Hv Hp Ht.
  rewrite (step_serving _ _ _ Hc), scheduler_unfold, (due_steady _ _ Hp Ht).
  rewrite long_of_ulong_low by lia.
  split; intros H.
  - apply Z.leb_le in H. rewrite H.
    destruct (convertible_defined w (set_previousMillis (millis w) st) Hv)
      as [st' [evs E]].
    rewrite E. exists st', evs.
    destruct (updateReadings_defined _ _ _ _ _ E) as [t [h [p [_ [S1 T1]]]]].
    subst. unfold cycles. simpl.
    rewrite cycle_trace_no_cycle, after_cycle_previousMillis. auto.
  - apply Z.leb_gt in H. rewrite H. reflexivity.
Qed.

Lemma scheduler_fires_when_due_witness :
  exists st' evs,
    step (Serving "c8:2a:14:00:00:01")
         (Bench.at_time 2500 (Bench.nominal (100, 200, 300, 50))) initial
    = Some (Serving "c8:2a:14:00:00:01", st', UpdateCycle :: evs) /\
    updateReadings (Bench.at_time 2500 (Bench.nominal (100, 200, 300, 50)))
                   (set_previousMillis
                      (millis (Bench.at_time 2500
                                 (Bench.nominal (100, 200, 300, 50))))
                      initial)
    = Some (tt, st', evs) /\
    cycles (UpdateCycle :: evs) = 1%nat /\
    previousMillis st'
    = millis (Bench.at_time 2500 (Bench.nominal (100, 200, 300, 50))).
Proof.
  refine (proj1 (scheduler_fires_when_due "c8:2a:14:00:00:01"%string
                   (Bench.at_time 2500 (Bench.nominal (100, 200, 300, 50)))
                   initial eq_refl eq_refl _ _) _).
  - vm_compute. split; discriminate.
  - vm_compute. reflexivity.
  - vm_compute. discriminate.
Defined.

End Timing.

(* ===================================================================== *)
(** ** The colour text *)
(* ===================================================================== *)

Section ColourText.

Import CInt Sketch Filter Session.

Lemma append_assoc (s1 s2 s3 : string) :
  ((s1 ++ s2) ++ s3 = s1 ++ (s2 ++ s3))%string.
Proof.
  induction s1 as [|ch s1 IH]; simpl; [reflexivity|].
  rewrite IH. reflexivity.
Qed.

Lemma length_append (s1 s2 : string) :
  String.length (s1 ++ s2) = (String.length s1 + String.length s2)%nat.
Proof.
  induction s1 as [|ch s1 IH]; simpl; [reflexivity|].
  rewrite IH. reflexivity.
Qed.

(** The colour text, flat. *)
Lemma colorString_flat (vr vg vb va : Z) :
  colorString vr vg vb va
  = (WString.of_int vr ++ String "," (WString.of_int vg
       ++ String "," (WString.of_int vb ++ String "," (WString.of_int va))))%string.
Proof.
  unfold colorString. cbn [append].
  rewrite !append_assoc. cbn [append]. reflexivity.
Qed.

Lemma string_of_uint_comma_free (d : Decimal.uint) :
  comma_free (NilEmpty.string_of_uint d).
Proof.
  induction d; simpl; auto; split; auto; discriminate.
Qed.

Lemma of_int_comma_free (z : Z) : comma_free (WString.of_int z).
Proof.
  unfold WString.of_int, NilEmpty.string_of_int.
  destruct (Z.to_int z) as [d|d]; simpl.
  - apply string_of_uint_comma_free.
  - split; [discriminate | apply string_of_uint_comma_free].
Qed.

(** Two texts split at their first comma split alike. *)
Lemma split_at_comma (s1 s2 t1 t2 : string) :
  comma_free s1 -> comma_free s2 ->
  (s1 ++ String "," t1 = s2 ++ String "," t2)%string ->
  s1 = s2 /\ t1 = t2.
Proof.
  revert s2. induction s1 as [|c1 s1 IH]; intros [|c2 s2]; simpl;
    intros H1 H2 E.
  - inversion E. auto.
  - inversion E as [[Hc _]]. destruct H2 as [H2 _]. congruence.
  - inversion E as [[Hc _]]. destruct H1 as [H1 _]. congruence.
  - inversion E as [[Hc Hs]]. destruct H1 as [_ H1]. destruct H2 as [_ H2].
    destruct (IH s2 H1 H2 Hs) as [-> ->]. auto.
Qed.

(** A number reads back from its decimal text. *)
Lemma of_int_inj (z1 z2 : Z) :
  WString.of_int z1 = WString.of_int z2 -> z1 = z2.
Proof.
  unfold WString.of_int. intros H.
  apply (f_equal NilEmpty.int_of_string) in H.
  rewrite !NilEmpty.isi in H. inversion H as [H'].
  exact (DecimalZ.to_int_inj _ _ H').
Qed.

Lemma colorString_inj (r1 g1 b1 a1 r2 g2 b2 a2 : Z) :
  colorString r1 g1 b1 a1 = colorString r2 g2 b2 a2 ->
  (r1, g1, b1, a1) = (r2, g2, b2, a2).
Proof.
  rewrite !colorString_flat. intros H.
  apply split_at_comma in H; try apply of_int_comma_free.
  destruct H as [Hr H].
  apply split_at_comma in H; try apply of_int_comma_free.
  destruct H as [Hg H].
  apply split_at_comma in H; try apply of_int_comma_free.
  destruct H as [Hb Ha].
  apply of_int_inj in Hr, Hg, Hb, Ha. subst. reflexivity.
Qed.

(** A write on Color in a cycle carries the text of the cycle's reading. *)
Lemma color_write_shape w st u st' evs p :
  updateReadings w st = Some (u, st', evs) ->
  In (writeValue Color p) evs ->
  p = payload (Text (colorText w)).
Proof.
  intros H Hin.
  destruct (updateReadings_defined _ _ _ _ _ H) as [t [h [q [_ [_ Hev]]]]].
  apply written_In in Hin. rewrite Hev in Hin.
  destruct (written_cycle Color t h q w st) as [[_ Hw]|[_ Hw]];
    rewrite Hw in Hin; simpl in Hin; [contradiction|].
  destruct Hin as [Hp|[]]. subst p. reflexivity.
Qed.

(** X12.  The colour text determines the reading: two readings with the
    same text are the same four numbers.  So a cycle that starts with the
    text of a reading remembered writes the Color characteristic exactly
    when the new reading differs from that reading in some channel. *)
Theorem color_written_iff_reading_changed :
  (forall r1 g1 b1 a1 r2 g2 b2 a2,
      colorString r1 g1 b1 a1 = colorString r2 g2 b2 a2 ->
      (r1, g1, b1, a1) = (r2, g2, b2, a2))
  /\ (forall w st u st' evs r0 g0 b0 a0,
         previousColor st = colorString r0 g0 b0 a0 ->
         updateReadings w st = Some (u, st', evs) ->
         (publishes Color evs = true <-> APDS_readColor w <> (r0, g0, b0, a0))).
Proof.
  split; [exact colorString_inj|].
  intros w st u st' evs r0 g0 b0 a0 Hprev H.
  destruct (updateReadings_defined _ _ _ _ _ H) as [t [h [p [_ [_ Hev]]]]].
  unfold publishes. rewrite Hev.
  destruct (written_cycle Color t h p w st) as [[Heq Hw]|[Hne Hw]]; rewrite Hw;
    cbn [computed lastPublished] in *; unfold colorText in *;
    destruct (APDS_readColor w) as [[[cr cg] cb] ca]; rewrite Hprev in *.
  - split; [discriminate|]. intros Hd. exfalso. apply Hd.
    inversion Heq as [E]. exact (colorString_inj _ _ _ _ _ _ _ _ E).
  - split; [|reflexivity]. intros _ E. apply Hne. inversion E. reflexivity.
Qed.

Lemma color_written_iff_reading_changed_witness :
  publishes Color
    (match updateReadings (Bench.nominal (100, 200, 300, 51))
             (after_cycle 1750 4523 1013250 (100, 200, 300, 50) initial) with
     | Some (_, _, evs) => evs
     | None => []
     end) = true
  <-> APDS_readColor (Bench.nominal (100, 200, 300, 51)) <> (100, 200, 300, 50).
Proof.
  exact (proj2 color_written_iff_reading_changed
               (Bench.nominal (100, 200, 300, 51))
               (after_cycle 1750 4523 1013250 (100, 200, 300, 50) initial)
               tt _ _ 100 200 300 50 eq_refl eq_refl).
Defined.

Lemma scan_fst (n : N) : fst (scan n) = n.
Proof.
  unfold scan. induction n using N.peano_ind.
  - reflexivity.
  - rewrite N.iter_succ. simpl. rewrite IHn. reflexivity.
Qed.

Lemma scan_sound (n : N) :
  snd (scan n) = true -> forall i, (i < n)%N -> five_digits i = true.
Proof.
  unfold scan. induction n using N.peano_ind; intros H i Hi.
  - lia.
  - rewrite N.iter_succ in H. simpl in H.
    apply andb_prop in H. destruct H as [H1 H2].
    fold (scan n) in H1, H2. rewrite scan_fst in H2.
    destruct (N.eq_dec i n) as [->|Hne]; [exact H2|].
    apply IHn; [exact H1 | lia].
Qed.

Lemma scan_uint16 : snd (scan 65536) = true.
Proof. vm_compute. reflexivity. Qed.

Lemma uint16_digits (v : Z) :
  uint16 v = true ->
  (1 <= String.length (WString.of_int v) <= 5)%nat.
Proof.
  unfold uint16. intros H. apply andb_prop in H. destruct H as [Hlo Hhi].
  apply Z.leb_le in Hlo. apply Z.leb_le in Hhi.
  assert (F : five_digits (Z.to_N v) = true).
  { apply (scan_sound 65536 scan_uint16). lia. }
  unfold five_digits in F. rewrite Z2N.id in F by exact Hlo.
  apply andb_prop in F. destruct F as [H1 H5].
  apply Nat.leb_le in H1. apply Nat.leb_le in H5. auto.
Qed.

(** X13.  For readings of the sensor's 16-bit channels, the buffer a
    cycle hands to [writeValue] on Color has from 8 to 24 bytes, so it
    fits the 24 bytes the characteristic is declared with; four
    five-digit channels fill it exactly, and readings beyond 16 bits can
    exceed it (28 bytes for four times 100000). *)
Theorem color_buffer_fits :
  (forall w st u st' evs bytes size,
      uint16_reading (APDS_readColor w) = true ->
      updateReadings w st = Some (u, st', evs) ->
      In (writeValue Color (Buf bytes size)) evs ->
      (8 <= size <= colorCharacteristic_valueSize)%nat /\
      List.length bytes = size)
  /\ S (String.length (colorString 65535 65535 65535 65535))
     = colorCharacteristic_valueSize
  /\ (colorCharacteristic_valueSize
      < S (String.length (colorString 100000 100000 100000 100000)))%nat.
Proof.
  split; [|split; [reflexivity | vm_compute; lia]].
  intros w st u st' evs bytes size Hr H Hin.
  pose proof (color_write_shape _ _ _ _ _ _ H Hin) as Hp.
  cbn [payload] in Hp. inversion Hp as [[Hb Hs]]. clear Hp.
  pose proof (getBytes_whole (colorText w)) as G.
  unfold WString.getBytes in G.
  rewrite G, last_length, length_list_byte_of_string.
  split; [|reflexivity].
  unfold colorText, uint16_reading, colorCharacteristic_valueSize in *.
  destruct (APDS_readColor w) as [[[cr cg] cb] ca].
  apply andb_prop in Hr. destruct Hr as [Hr Ha].
  apply andb_prop in Hr. destruct Hr as [Hr Hb'].
  apply andb_prop in Hr. destruct Hr as [Hr Hg].
  apply uint16_digits in Hr, Hg, Hb', Ha.
  rewrite colorString_flat.
  repeat (rewrite length_append; cbn [String.length]).
  lia.
Qed.

Lemma color_buffer_fits_witness :
  (8 <= 15 <= colorCharacteristic_valueSize)%nat /\
  List.length (list_byte_of_string "100,200,300,50" ++ [Byte.x00]) = 15%nat.
Proof.
  refine (proj1 color_buffer_fits (Bench.nominal (100, 200, 300, 50)) initial
                tt (after_cycle 1750 4523 1013250 (100, 200, 300, 50) initial)
                (cycle_trace 1750 4523 1013250
                             (Bench.nominal (100, 200, 300, 50)) initial)
                _ _ eq_refl eq_refl _).
  apply written_In. left. reflexivity.
Defined.

End ColourText.

(* ===================================================================== *)
(** ** Truncation: error and edges of the conversions *)
(* ===================================================================== *)

Section Quantisation.

Import CInt Sketch Filter.

Local Open Scope Q_scope.

Lemma truncate_nonneg (q : Q) :
  0 <= q ->
  inject_Z (QInt.truncate q) <= q /\ q < inject_Z (QInt.truncate q) + 1.
Proof.
  intros H. unfold QInt.truncate.
  apply Qle_bool_iff in H. rewrite H. split.
  - apply Qfloor_le.
  - pose proof (Qlt_floor q) as L. rewrite inject_Z_plus in L. exact L.
Qed.

Lemma truncate_neg (q : Q) :
  q < 0 ->
  q <= inject_Z (QInt.truncate q) /\ inject_Z (QInt.truncate q) - 1 < q.
Proof.
  intros H. unfold QInt.truncate.
  destruct (Qle_bool 0 q) eqn:E.
  - apply Qle_bool_iff in E. exfalso.
    exact (Qlt_irrefl q (Qlt_le_trans _ _ _ H E)).
  - split.
    + apply Qle_ceiling.
    + pose proof (Qceiling_lt q) as L.
      unfold Z.sub in L. rewrite inject_Z_plus in L. exact L.
Qed.

(** Truncation is off by less than one, toward zero. *)
Lemma truncate_error (q : Q) :
  q - 1 < inject_Z (QInt.truncate q) /\ inject_Z (QInt.truncate q) < q + 1.
Proof.
  destruct (Qlt_le_dec q 0) as [Hn|Hp].
  - destruct (truncate_neg q Hn) as [H1 H2]. split.
    + apply Qlt_le_trans with q; [|exact H1].
      rewrite <- (Qplus_0_r q) at 2. apply Qplus_lt_r. reflexivity.
    + apply Qplus_lt_l with (z := - 1). ring_simplify. exact H2.
  - destruct (truncate_nonneg q Hp) as [H1 H2]. split.
    + apply Qplus_lt_l with (z := 1). ring_simplify. exact H2.
    + apply Qle_lt_trans with q; [exact H1|].
      rewrite <- (Qplus_0_r q) at 1. apply Qplus_lt_r. reflexivity.
Qed.

Lemma truncate_small (q : Q) : - 1 < q -> q < 1 -> QInt.truncate q = 0%Z.
Proof.
  intros Hlo Hhi.
  destruct (Qlt_le_dec q 0) as [Hn|Hp].
  - destruct (truncate_neg q Hn) as [H1 H2].
    assert (A : (-1 < QInt.truncate q)%Z).
    { rewrite Zlt_Qlt. apply Qlt_le_trans with q; assumption. }
    assert (B : (QInt.truncate q - 1 < 0)%Z).
    { rewrite Zlt_Qlt. unfold Z.sub. rewrite inject_Z_plus.
      apply Qlt_trans with q; assumption. }
    lia.
  - destruct (truncate_nonneg q Hp) as [H1 H2].
    assert (A : (QInt.truncate q < 1)%Z).
    { rewrite Zlt_Qlt. apply Qle_lt_trans with q; assumption. }
    assert (B : (-1 < QInt.truncate q)%Z).
    { rewrite Zlt_Qlt. apply Qplus_lt_l with (z := 1).
      apply Qle_lt_trans with q; [|exact H2]. exact Hp. }
    lia.
Qed.

Lemma truncate_below (q : Q) : q <= - 1 -> (QInt.truncate q <= - 1)%Z.
Proof.
  intros H.
  assert (Hn : q < 0) by (apply Qle_lt_trans with (- 1); [exact H | reflexivity]).
  destruct (truncate_neg q Hn) as [_ H2].
  assert (A : (QInt.truncate q - 1 < - 1)%Z).
  { rewrite Zlt_Qlt. unfold Z.sub. rewrite inject_Z_plus.
    apply Qlt_le_trans with q; assumption. }
  lia.
Qed.

Lemma truncate_above (q : Q) (k : Z) :
  inject_Z k <= q -> (0 <= k)%Z -> (k <= QInt.truncate q)%Z.
Proof.
  intros H Hk.
  assert (Hp : 0 <= q).
  { apply Qle_trans with (inject_Z k); [|exact H].
    change 0 with (inject_Z 0). rewrite <- Zle_Qle. exact Hk. }
  destruct (truncate_nonneg q Hp) as [_ H2].
  assert (A : (k < QInt.truncate q + 1)%Z).
  { rewrite Zlt_Qlt. rewrite inject_Z_plus.
    apply Qle_lt_trans with q; assumption. }
  lia.
Qed.

(** The conversion to [unsigned int], on the number a float stands
    for. *)
Lemma to_uint_edges (x : Float32.float) (q : Q) :
  Float32.to_Q x = Some q ->
  (q <= - 1 -> Float32.to_uint x = None) /\
  (- 1 < q -> q < 1 -> Float32.to_uint x = Some 0%Z) /\
  (inject_Z (UINT_MAX + 1) <= q -> Float32.to_uint x = None) /\
  (forall n, Float32.to_uint x = Some n -> 0 <= q ->
             inject_Z n <= q /\ q < inject_Z n + 1).
Proof.
  intros Hq. unfold Float32.to_uint. rewrite (trunc_finite x q Hq).
  split; [|split; [|split]].
  - intros H. apply truncate_below in H.
    assert (E : in_uint (QInt.truncate q) = false).
    { unfold in_uint. apply andb_false_intro1. apply Z.leb_gt. lia. }
    rewrite E. reflexivity.
  - intros Hlo Hhi. rewrite (truncate_small q Hlo Hhi). reflexivity.
  - intros H. change (UINT_MAX + 1)%Z with 4294967296%Z in H.
    apply truncate_above in H; [|lia].
    assert (E : in_uint (QInt.truncate q) = false).
    { unfold in_uint. change UINT_MAX with 4294967295%Z.
      apply andb_false_intro2. apply Z.leb_gt. lia. }
    rewrite E. reflexivity.
  - intros n E Hp.
    destruct (in_uint (QInt.truncate q)); [|discriminate].
    inversion E. subst. exact (truncate_nonneg q Hp).
Qed.

Lemma not_finite_product (x : Float32.float) (k : Z) :
  Float32.finite x = false ->
  Float32.finite (Float32.of_int k) = true ->
  Float32.to_Q (Float32.mul x (Float32.of_int k)) = None.
Proof.
  intros Hx Hk.
  destruct x as [s|s| |s m e]; try discriminate Hx;
    destruct (Float32.of_int k) as [s'|s'| |s' m' e']; try discriminate Hk;
    reflexivity.
Qed.

(** X14.  The humidity codec, on the number [q] its binary32 product
    stands for: it is undefined when the reading is a NaN or an infinity,
    when [q <= -1] and when [q >= 2^32]; it returns 0 for every
    [-1 < q < 1], small negative products included; and for [q >= 0] the
    value [n] it returns satisfies [n <= q < n + 1], so it never
    overstates the reading. *)
Theorem getHumidity_edges :
  (forall w st,
      Float32.finite (HTS_readHumidity w) = false ->
      getHumidity w st = None)
  /\ (forall w st q,
         Float32.to_Q (Float32.mul (HTS_readHumidity w) (Float32.of_int 100))
         = Some q ->
         (q <= - 1 -> getHumidity w st = None) /\
         (- 1 < q -> q < 1 -> getHumidity w st = Some (0%Z, st, [])) /\
         (inject_Z (UINT_MAX + 1) <= q -> getHumidity w st = None) /\
         (forall n st' evs,
             getHumidity w st = Some (n, st', evs) -> 0 <= q ->
             inject_Z n <= q /\ q < inject_Z n + 1)).
Proof.
  split.
  - intros w st Hf. rewrite getHumidity_unfold. unfold Float32.to_uint.
    pose proof (not_finite_product _ 100 Hf eq_refl) as Hq.
    destruct (Float32.mul (HTS_readHumidity w) (Float32.of_int 100));
      try discriminate Hq; reflexivity.
  - intros w st q Hq.
    destruct (to_uint_edges _ _ Hq) as [E1 [E2 [E3 E4]]].
    rewrite getHumidity_unfold. split; [|split; [|split]].
    + intros H. rewrite (E1 H). reflexivity.
    + intros Hlo Hhi. rewrite (E2 Hlo Hhi). reflexivity.
    + intros H. rewrite (E3 H). reflexivity.
    + intros n st' evs H Hp.
      destruct (Float32.to_uint _) as [x|] eqn:E; [|discriminate].
      inversion H; subst. exact (E4 n eq_refl Hp).
Qed.

Lemma getHumidity_edges_witness :
  getHumidity
    (Bench.world Bench.t_21_5 (S754_infinity false) Bench.p_101_325 (0, 0, 0, 0)%Z)
    initial
  = None.
Proof.
  exact (proj1 getHumidity_edges
               (Bench.world Bench.t_21_5 (S754_infinity false)
                            Bench.p_101_325 (0, 0, 0, 0)%Z)
               initial eq_refl).
Defined.

(** X15.  The pressure codec, on the number [q] its binary32 product
    ((reading * 1000) * 10) stands for: undefined for a NaN or infinite
    reading, for [q <= -1] and for [q >= 2^32]; 0 for [-1 < q < 1]; and
    for [q >= 0] the value [n] it returns satisfies [n <= q < n + 1]. *)
Theorem getPressure_edges :
  (forall w st,
      Float32.finite (BARO_readPressure w) = false ->
      getPressure w st = None)
  /\ (forall w st q,
         Float32.to_Q
           (Float32.mul (Float32.mul (BARO_readPressure w) (Float32.of_int 1000))
                        (Float32.of_int 10))
         = Some q ->
         (q <= - 1 -> getPressure w st = None) /\
         (- 1 < q -> q < 1 -> getPressure w st = Some (0%Z, st, [])) /\
         (inject_Z (UINT_MAX + 1) <= q -> getPressure w st = None) /\
         (forall n st' evs,
             getPressure w st = Some (n, st', evs) -> 0 <= q ->
             inject_Z n <= q /\ q < inject_Z n + 1)).
Proof.
  split.
  - intros w st Hf. rewrite getPressure_unfold. unfold Float32.to_uint.
    assert (Hq : Float32.to_Q
                   (Float32.mul (Float32.mul (BARO_readPressure w)
                                             (Float32.of_int 1000))
                                (Float32.of_int 10)) = None).
    { apply not_finite_product; [|reflexivity].
      destruct (BARO_readPressure w) as [s|s| |s m e];
        try discriminate Hf; reflexivity. }
    destruct (Float32.mul (Float32.mul _ _) _);
      try discriminate Hq; reflexivity.
  - intros w st q Hq.
    destruct (to_uint_edges _ _ Hq) as [E1 [E2 [E3 E4]]].
    rewrite getPressure_unfold. split; [|split; [|split]].
    + intros H. rewrite (E1 H). reflexivity.
    + intros Hlo Hhi. rewrite (E2 Hlo Hhi). reflexivity.
    + intros H. rewrite (E3 H). reflexivity.
    + intros n st' evs H Hp.
      destruct (Float32.to_uint _) as [x|] eqn:E; [|discriminate].
      inversion H; subst. exact (E4 n eq_refl Hp).
Qed.

Lemma getPressure_edges_witness :
  getPressure
    (Bench.world Bench.t_21_5 Bench.h_45_23 S754_nan (0, 0, 0, 0)%Z) initial
  = None.
Proof.
  exact (proj1 getPressure_edges
               (Bench.world Bench.t_21_5 Bench.h_45_23 S754_nan (0, 0, 0, 0)%Z)
               initial eq_refl).
Defined.

(** X16.  The temperature a cycle encodes is the binary32 product of the
    reading with 100, truncated toward zero, less 400 for the calibration
    of -4.0 degrees; the truncated product is within one unit, 0.01
    degree, of the product; a NaN or infinite reading leaves the cycle
    undefined, and so does a truncated product below the least [int]
    plus 400, where the addition of the calibration would overflow. *)
Theorem cycle_temperature :
  (forall w st,
      Float32.finite (HTS_readTemperature w) = false ->
      updateReadings w st = None)
  /\ (forall w st n,
         encoded Temperature w st = Some (Number n) ->
         exists q,
           Float32.to_Q
             (Float32.mul (HTS_readTemperature w) (Float32.of_int 100))
           = Some q /\
           n = (QInt.truncate q - 400)%Z /\
           q - 1 < inject_Z (QInt.truncate q) /\
           inject_Z (QInt.truncate q) < q + 1)
  /\ (forall w st q,
         Float32.to_Q
           (Float32.mul (HTS_readTemperature w) (Float32.of_int 100))
         = Some q ->
         (QInt.truncate q < INT_MIN + 400)%Z ->
         updateReadings w st = None).
Proof.
  split; [|split].
  - intros w st Hf.
    rewrite updateReadings_unfold, getTemperature_unfold.
    unfold Float32.to_int at 1.
    pose proof (not_finite_product _ 100 Hf eq_refl) as Hq.
    destruct (Float32.mul (HTS_readTemperature w) (Float32.of_int 100));
      try discriminate Hq; reflexivity.
  - intros w st n. cbn [encoded]. rewrite getTemperature_unfold.
    destruct (Float32.to_int (Float32.mul (HTS_readTemperature w) _))
      as [x|] eqn:Hx; [|discriminate].
    change (Float32.to_int (Float32.mul CALIBRATION_FACTOR (Float32.of_int 100)))
      with (Some (-400)%Z).
    cbv iota beta.
    destruct (int_add x _) as [m|] eqn:Hm; cbn [value_of]; [|discriminate].
    intros H. inversion H as [Hn]. subst m. clear H.
    destruct (to_int_defined _ _ Hx) as [q [Hq [Ex Hr]]].
    destruct (int_add_defined _ _ _ Hm) as [En _].
    exists q. subst x.
    split; [exact Hq|]. split; [exact En|]. apply truncate_error.
  - intros w st q Hq Hlow.
    rewrite updateReadings_unfold, getTemperature_unfold.
    destruct (Float32.to_int (Float32.mul (HTS_readTemperature w) _))
      as [x|] eqn:Hx; [|reflexivity].
    change (Float32.to_int (Float32.mul CALIBRATION_FACTOR (Float32.of_int 100)))
      with (Some (-400)%Z).
    destruct (to_int_defined _ _ Hx) as [q' [Hq' [Ex _]]].
    rewrite Hq in Hq'. inversion Hq'. subst q' x. cbv iota beta.
    assert (E : int_add (QInt.truncate q) (-400) = None).
    { unfold int_add.
      assert (R : in_int (QInt.truncate q + -400) = false).
      { unfold in_int. apply andb_false_intro1. apply Z.leb_gt. lia. }
      rewrite R. reflexivity. }
    rewrite E. reflexivity.
Qed.

Lemma cycle_temperature_witness :
  updateReadings
    (Bench.world S754_nan Bench.h_45_23 Bench.p_101_325 (0, 0, 0, 0)%Z) initial
  = None.
Proof.
  exact (proj1 cycle_temperature
               (Bench.world S754_nan Bench.h_45_23 Bench.p_101_325 (0, 0, 0, 0)%Z)
               initial eq_refl).
Defined.

End Quantisation.
